(** * AI report writer: the research pipeline of [app.py]

    A shallow embedding of the pipeline's functions ([json_safe],
    [extract_json], [search_web], [plan_searches], [perform_searches],
    [build_references], [write_report], [run_research_pipeline]) and the
    properties its specification states about them.

    Python strings are sequences of Unicode code points; a code point is a
    natural number [N] and a string a [list N], so that [len], slicing and
    [str.replace] count what Python counts. *)

From Stdlib Require Import QArith Ascii DecimalNat.
From stdpp Require Import gmap list strings.

#[local] Set Warnings "-clear-no-such-hyp".

Set Default Proof Using "Type".
Local Open Scope list_scope.

(** ** Strings *)

Abbreviation pystr := (list N) (only parsing).

(** An ASCII literal of the source, as code points. *)
Definition lit (s : string) : pystr :=
  (fun a => Ascii.N_of_ascii a) <$> String.list_ascii_of_string s.

Arguments lit : simpl never.

Definition LF : N := 10%N.
Definition CR : N := 13%N.
Definition DQUOTE : N := 34%N.
Definition BACKSLASH : N := 92%N.
Definition LBRACE : N := 123%N.
Definition RBRACE : N := 125%N.

(** [s.replace(old, new)] for a one-character [old]. *)
Definition replace (old : N) (new : pystr) (s : pystr) : pystr :=
  c ← s; if (c =? old)%N then new else [c].

(** [json_safe], lines 38-42. *)
Definition json_safe (text : pystr) : pystr :=
  match text with
  | [] => []
  | _ =>
    replace CR [BACKSLASH; 114%N]
      (replace LF [BACKSLASH; 110%N]
        (replace DQUOTE [BACKSLASH; DQUOTE]
          (replace BACKSLASH [BACKSLASH; BACKSLASH] text)))
  end.

(** [str(n)] for a non-negative [int]: its decimal numeral. *)
Fixpoint uint_chars (u : Decimal.uint) : pystr :=
  match u with
  | Decimal.Nil => []
  | Decimal.D0 u => 48%N :: uint_chars u
  | Decimal.D1 u => 49%N :: uint_chars u
  | Decimal.D2 u => 50%N :: uint_chars u
  | Decimal.D3 u => 51%N :: uint_chars u
  | Decimal.D4 u => 52%N :: uint_chars u
  | Decimal.D5 u => 53%N :: uint_chars u
  | Decimal.D6 u => 54%N :: uint_chars u
  | Decimal.D7 u => 55%N :: uint_chars u
  | Decimal.D8 u => 56%N :: uint_chars u
  | Decimal.D9 u => 57%N :: uint_chars u
  end.

Definition str_of_nat (n : nat) : pystr := uint_chars (Nat.to_uint n).

(** [sep.join(parts)]. *)
Fixpoint join (sep : pystr) (parts : list pystr) : pystr :=
  match parts with
  | [] => []
  | [x] => x
  | x :: rest => x ++ sep ++ join sep rest
  end.

(** [enumerate(l, start)]. *)
Fixpoint enumerate {A} (start : nat) (l : list A) : list (nat * A) :=
  match l with
  | [] => []
  | x :: l' => (start, x) :: enumerate (S start) l'
  end.

(** [str.isspace] on one code point: the Unicode white space characters. *)
Definition isspace (c : N) : bool :=
  ((9 <=? c) && (c <=? 13) || (28 <=? c) && (c <=? 32) || (c =? 133)
   || (c =? 160) || (c =? 5760) || (8192 <=? c) && (c <=? 8202)
   || (c =? 8232) || (c =? 8233) || (c =? 8239) || (c =? 8287)
   || (c =? 12288))%N.

Fixpoint lstrip (s : pystr) : pystr :=
  match s with
  | [] => []
  | c :: s' => if isspace c then lstrip s' else s
  end.

Definition rstrip (s : pystr) : pystr := reverse (lstrip (reverse s)).

(** [s.strip()]: leading and trailing white space removed. *)
Definition strip (s : pystr) : pystr := rstrip (lstrip s).

(** ** The regular expression of [extract_json]

    [re.search(r"\{.*\}", text, re.DOTALL)]. With [re.DOTALL] the dot matches
    every character. [dotstar_rbrace s] is the text matched by [.*\}] at the
    head of [s]: the star is greedy, so the engine first lets it take one more
    character and only when the rest cannot match does it stop and ask for
    the closing brace here. [re_search] tries the start positions from left
    to right and returns [match.group()] of the first that matches. *)
Fixpoint dotstar_rbrace (s : pystr) : option pystr :=
  match s with
  | [] => None
  | c :: s' =>
    match dotstar_rbrace s' with
    | Some m => Some (c :: m)
    | None => if (c =? RBRACE)%N then Some [c] else None
    end
  end.

Fixpoint re_search (text : pystr) : option pystr :=
  match text with
  | [] => None
  | c :: rest =>
    if (c =? LBRACE)%N then
      match dotstar_rbrace rest with
      | Some m => Some (c :: m)
      | None => re_search rest
      end
    else re_search rest
  end.

(** ** JSON values

    What [json.loads] returns: [None], [bool], [int], [str], [list] and
    [dict] with string keys, the members of a [dict] in document order.
    No function of the pipeline inspects a number, and [float] is left out. *)
#[local] Set Warnings "-register-all".

Inductive json :=
| JNull
| JBool (b : bool)
| JNum (n : Z)
| JStr (s : pystr)
| JArr (items : list json)
| JObj (members : list (pystr * json)).

(** [d.get(k)] on a decoded object; when a key is repeated in the document
    the last member wins, as in [json.loads]. *)
Fixpoint dict_get (members : list (pystr * json)) (k : pystr) : option json :=
  match members with
  | [] => None
  | (k', v) :: rest =>
    match dict_get rest k with
    | Some v' => Some v'
    | None => if decide (k' = k) then Some v else None
    end
  end.

(** ** Pydantic models, lines 23-33

    The three classes, and what constructing one from keyword arguments
    checks. The fields are declared [str] and [List[...]] with a description
    and nothing else, so validation asks for presence and type only.
    Validation is pydantic 2's (the version the model client requires): a
    number is not turned into a string, and all errors are collected. *)

Record WebSearchItem := { reason : pystr; query : pystr }.

Record WebSearchPlan := { searches : list WebSearchItem }.

Record ReportData := {
  short_summary : pystr;
  markdown_report : pystr;
  follow_up_questions : list pystr
}.

(** Where a validation error sits, and pydantic's name for what is wrong. *)
Inductive loc_item := LocField (name : pystr) | LocIndex (i : nat).

Inductive error_type := missing | string_type | list_type | model_type.

Definition error_detail : Type := list loc_item * error_type.

Definition errors_of {A} (r : list error_detail + A) : list error_detail :=
  match r with
  | inl e => e
  | inr _ => []
  end.

(** A field annotated [str]: present and a string. Nothing is converted
    and nothing else is asked of the string. *)
Definition validate_str (loc : list loc_item) (v : option json)
  : list error_detail + pystr :=
  match v with
  | None => inl [(loc, missing)]
  | Some (JStr s) => inr s
  | Some _ => inl [(loc, string_type)]
  end.

(** A value annotated with a model: a mapping whose fields validate; the keys
    the model does not declare are ignored. *)
Definition validate_WebSearchItem (loc : list loc_item) (v : json)
  : list error_detail + WebSearchItem :=
  match v with
  | JObj m =>
    let r := validate_str (loc ++ [LocField (lit "reason")]) (dict_get m (lit "reason")) in
    let q := validate_str (loc ++ [LocField (lit "query")]) (dict_get m (lit "query")) in
    match r, q with
    | inr r, inr q => inr {| reason := r; query := q |}
    | _, _ => inl (errors_of r ++ errors_of q)
    end
  | _ => inl [(loc, model_type)]
  end.

(** The items of a [List[...]] field, each at its index; the errors of all
    items are collected. *)
Fixpoint validate_items {A} (f : list loc_item -> json -> list error_detail + A)
    (loc : list loc_item) (i : nat) (l : list json)
  : list error_detail + list A :=
  match l with
  | [] => inr []
  | v :: l' =>
    let x := f (loc ++ [LocIndex i]) v in
    let xs := validate_items f loc (S i) l' in
    match x, xs with
    | inr x, inr xs => inr (x :: xs)
    | _, _ => inl (errors_of x ++ errors_of xs)
    end
  end.

Definition validate_list {A} (f : list loc_item -> json -> list error_detail + A)
    (loc : list loc_item) (v : option json) : list error_detail + list A :=
  match v with
  | None => inl [(loc, missing)]
  | Some (JArr l) => validate_items f loc 0 l
  | Some _ => inl [(loc, list_type)]
  end.

Definition validate_WebSearchPlan (kwargs : list (pystr * json))
  : list error_detail + WebSearchPlan :=
  match validate_list validate_WebSearchItem [LocField (lit "searches")]
          (dict_get kwargs (lit "searches")) with
  | inr items => inr {| searches := items |}
  | inl e => inl e
  end.

Definition validate_ReportData (kwargs : list (pystr * json))
  : list error_detail + ReportData :=
  let summary :=
    validate_str [LocField (lit "short_summary")] (dict_get kwargs (lit "short_summary")) in
  let report :=
    validate_str [LocField (lit "markdown_report")] (dict_get kwargs (lit "markdown_report")) in
  let questions :=
    validate_list (fun loc v => validate_str loc (Some v))
      [LocField (lit "follow_up_questions")] (dict_get kwargs (lit "follow_up_questions")) in
  match summary, report, questions with
  | inr s, inr r, inr q =>
    inr {| short_summary := s; markdown_report := r; follow_up_questions := q |}
  | _, _, _ => inl (errors_of summary ++ errors_of report ++ errors_of questions)
  end.

(** ** Exceptions *)

(** The exceptions of the pipeline, all of them subclasses of [Exception]:
    [ValueError] and [RecursionError] with their message, the
    [JSONDecodeError] of [json.loads] with its message, the [TypeError] of a
    call [callable( **data)] whose [data] is no mapping, with the name of the
    callable and of the type of [data], pydantic's [ValidationError], and
    whatever a client of an external service (the language model, the search
    provider) raises. *)
Inductive exception :=
| ValueError (msg : pystr)
| JSONDecodeError (msg : pystr)
| RecursionError (msg : pystr)
| TypeError (callable : pystr) (got : pystr)
| ValidationError (model : pystr) (errors : list error_detail)
| ClientError (msg : pystr).

(** [isinstance(e, json.JSONDecodeError)]. *)
Definition is_JSONDecodeError (e : exception) : bool :=
  match e with
  | JSONDecodeError _ => true
  | _ => false
  end.

(** ** Search results *)

(** One result record, a [dict] from field name to text, and the
    [search_output] of [search_web], lines 79-84. *)
Record SearchOutcome := {
  out_query : pystr;
  out_reason : pystr;
  results : list (gmap (list N) (list N));
  summary : pystr
}.

(** What [GoogleSearch(params).get_dict()] answers, as far as [search_web]
    reads it: the entry ["organic_results"], when there is one. *)
Record ProviderData := {
  organic_results : option (list (gmap (list N) (list N)))
}.

(** The [params] of [search_web], lines 62-67. *)
Record SearchParams := {
  q : pystr;
  engine : pystr;
  api_key : pystr;
  num : Z
}.

(** The arguments of [client.models.generate_content]. *)
Record GenerateRequest := {
  model : pystr;
  contents : pystr;
  temperature : Q;
  response_mime_type : pystr
}.

(** What the pipeline does to the outside, in the order it does it. The
    fractions of progress and the seconds of sleep are floats in the source
    and exact rationals here; no statement below depends on their value. *)
Inductive event :=
| Progress (fraction : Q) (desc : pystr)
| ModelBegin (req : GenerateRequest)
| ModelEnd
| SearchBegin (params : SearchParams)
| SearchEnd
| Sleep (seconds : Q).

(** ** Configuration and fixed texts *)

Definition SERPAPI_KEY : pystr := lit "ENTER YOUR API KEY HERE".

Definition NUM_SEARCHES : nat := 3.

Definition quoted (s : pystr) : pystr := DQUOTE :: s ++ [DQUOTE].

(** Lines 90-104; the f-string puts [NUM_SEARCHES] in. *)
Definition SEARCH_PLANNER_INSTRUCTION : pystr :=
  lit "You are a research planning assistant. 
Given a research query, create a strategic search plan with "
  ++ str_of_nat NUM_SEARCHES ++
  lit " different searches. 
Each search should target different aspects to provide comprehensive coverage. 
Think about:
- Different angles and perspectives on the topic
- Various subtopics and related areas
- Recent developments and trends
- Comparisons with alternatives
- Technical details and implementation aspects
- Use cases and applications
- Expert opinions and reviews
- Challenges and limitations

Return a JSON object with the exact format: 
{" ++ quoted (lit "searches") ++ lit ": [{" ++ quoted (lit "reason") ++ lit ": "
  ++ quoted (lit "...") ++ lit ", " ++ quoted (lit "query") ++ lit ": "
  ++ quoted (lit "...") ++ lit "}, ...]}".

(** Lines 106-119. *)
Definition REPORT_WRITER_INSTRUCTION : pystr :=
  lit "You are a senior researcher tasked with writing a cohesive report for a research query. 
You will be provided with the original query and search results from a research assistant.

First, create an outline for the report that describes the structure and flow. 
Then, generate the full report based on that outline.

Requirements:
- The report must be in markdown format
- It should be detailed and comprehensive (aim for 1000+ words)
- Include proper sections with headers
- Provide a short 2-3 sentence summary
- Suggest 3-5 follow-up research questions

Return a JSON object with: {" ++ quoted (lit "short_summary") ++ lit ": "
  ++ quoted (lit "...") ++ lit ", " ++ quoted (lit "markdown_report") ++ lit ": "
  ++ quoted (lit "...") ++ lit ", " ++ quoted (lit "follow_up_questions")
  ++ lit ": [...]}".

(** The marks in front of the messages, as the source file has them. *)
Definition MARK_CROSS : pystr := [226; 338]%N.
Definition MARK_CHECK : pystr := [226; 339; 8220]%N.
Definition MARK_BRAIN : pystr := [287; 376; 167; 160]%N.
Definition MARK_LENS : pystr := [287; 376; 8221]%N.
Definition MARK_MEMO : pystr := [287; 376; 8220]%N.
Definition MARK_ROCKET : pystr := [287; 376; 353; 8364]%N.

Definition VALIDATION_MESSAGE : pystr :=
  MARK_CROSS ++ lit " Please enter a valid research query (at least 3 characters)".

Definition ERROR_PREFIX : pystr := MARK_CROSS ++ lit " Error: ".

(** ** [extract_json], lines 43-55

    [json.loads] is the standard library's: a parameter, answering the
    decoded value or the exception it raises, which is a [JSONDecodeError]
    for a text that is not JSON and may be another one (a [ValueError] for
    an integer of more digits than the interpreter converts, a
    [RecursionError] for a text nested too deep). Line 54 catches the
    first kind only. *)
Section Extractor.
Variable json_loads : pystr -> exception + json.

Definition extract_json (text : pystr) : exception + json :=
  let body :=
    match re_search text with
    | None => inl (ValueError (lit "No JSON object found in text."))
    | Some json_text => json_loads json_text
    end in
  match body with
  | inl (JSONDecodeError e) =>
    inl (ValueError (lit "Failed to parse JSON: " ++ e ++ [LF]
                     ++ lit "Preview: " ++ take 500 text))
  | _ => body
  end.

(** [type(data).__name__] of a decoded value. *)
Definition type_name (data : json) : pystr :=
  match data with
  | JNull => lit "NoneType"
  | JBool _ => lit "bool"
  | JNum _ => lit "int"
  | JStr _ => lit "str"
  | JArr _ => lit "list"
  | JObj _ => lit "dict"
  end.

(** The constructor calls of [WebSearchPlan] and [ReportData] on [data]
    unpacked as keyword arguments: [data] has to be a mapping, or the
    interpreter raises [TypeError] before the constructor runs. *)
Definition WebSearchPlan_init (data : json) : exception + WebSearchPlan :=
  match data with
  | JObj kwargs =>
    match validate_WebSearchPlan kwargs with
    | inl errors => inl (ValidationError (lit "WebSearchPlan") errors)
    | inr plan => inr plan
    end
  | _ => inl (TypeError (lit "WebSearchPlan") (type_name data))
  end.

Definition ReportData_init (data : json) : exception + ReportData :=
  match data with
  | JObj kwargs =>
    match validate_ReportData kwargs with
    | inl errors => inl (ValidationError (lit "ReportData") errors)
    | inr report => inr report
    end
  | _ => inl (TypeError (lit "ReportData") (type_name data))
  end.
End Extractor.

(** ** [build_references], lines 163-182 *)

Record refs_state := {
  seen : gset (list N * list N);
  references_md : pystr;
  counter : nat
}.

Definition title_of (res : gmap (list N) (list N)) : pystr :=
  default (lit "No title") (res !! lit "title").

Definition url_of (res : gmap (list N) (list N)) : pystr :=
  default [] (res !! lit "url").

(** The body of the inner loop. *)
Definition add_reference (st : refs_state) (res : gmap (list N) (list N)) : refs_state :=
  let title := title_of res in
  let url := url_of res in
  let key := (title, url) in
  if bool_decide (key ∉ seen st) && bool_decide (url ≠ []) then
    {| seen := {[ key ]} ∪ seen st;
       references_md :=
         references_md st ++ str_of_nat (counter st) ++ lit ". [" ++ title
         ++ lit "](" ++ url ++ lit ")" ++ [LF];
       counter := S (counter st) |}
  else st.

Definition build_references (search_results : list SearchOutcome) : pystr :=
  references_md
    (foldl (fun st search => foldl add_reference st (results search))
       {| seen := ∅; references_md := lit "## References" ++ [LF; LF]; counter := 1 |}
       search_results).

(** ** The prompt of [write_report], lines 189-201 *)

Definition results_summary (search_results : list SearchOutcome) : pystr :=
  join [LF; LF]
    ((fun '(i, r) =>
        lit "Search " ++ str_of_nat (i + 1) ++ lit ": " ++ json_safe (out_query r) ++ [LF]
        ++ lit "Reason: " ++ json_safe (out_reason r) ++ [LF]
        ++ lit "References:" ++ [LF]
        ++ join [LF]
             ((fun '(j, res) =>
                 str_of_nat (j + 1) ++ lit ". " ++ json_safe (default [] (res !! lit "url")))
              <$> enumerate 0 (results r)))
     <$> enumerate 0 search_results).

Definition report_input_text (query : pystr) (search_results : list SearchOutcome) : pystr :=
  REPORT_WRITER_INSTRUCTION ++ [LF; LF]
  ++ lit "Original Research Query: " ++ json_safe query ++ [LF; LF]
  ++ lit "Search Results:" ++ [LF] ++ results_summary search_results ++ [LF; LF]
  ++ lit "Please write a comprehensive report in JSON format with short_summary, markdown_report, and follow_up_questions.".

(** ** The query check of [run_research_pipeline], line 227 *)
Definition query_rejected (query : pystr) : bool :=
  bool_decide (query = []) || bool_decide (length (strip query) < 3).

(** ** The stages

    The language model and the search provider are outside the program:
    each is a parameter that, in a state of the world [W], either answers or
    raises, and leaves a new state. The standard library's [json.dumps] and
    [json.loads] are parameters as well. *)
Class Env := {
  W : Type;
  (** [json.loads] on the text of a model response, *)
  json_loads : pystr -> exception + json;
  (** [json.dumps] and [json.loads] on a search output, *)
  json_dumps : SearchOutcome -> pystr;
  json_loads_outcome : pystr -> exception + SearchOutcome;
  (** a client for the model: [generate_content(...)] and [.text] of its
      response, *)
  generate_content : GenerateRequest -> W -> (exception + pystr) * W;
  (** [GoogleSearch(params).get_dict()], *)
  get_dict : SearchParams -> W -> (exception + ProviderData) * W;
  (** [str(e)] of a pydantic [ValidationError], *)
  validation_error_str : pystr -> list error_detail -> pystr;
  (** and [__name__] of the module, which is how the program was started:
      the interpreter writes it before the name of a class in a message. *)
  module_name : pystr
}.

Section Pipeline.
Context `{Env}.

(** [str(e)]. *)
Definition exception_str (e : exception) : pystr :=
  match e with
  | ValueError msg | JSONDecodeError msg | RecursionError msg | ClientError msg => msg
  | TypeError callable got =>
    module_name ++ lit "." ++ callable
    ++ lit "() argument after ** must be a mapping, not " ++ got
  | ValidationError model errors => validation_error_str model errors
  end.

(** The state a run threads: the world and the events so far. *)
Record state := { world : W; trace : list event }.

Definition M (A : Type) : Type := state -> (exception + A) * state.

Definition ret {A} (x : A) : M A := fun st => (inr x, st).

Definition raise {A} (e : exception) : M A := fun st => (inl e, st).

Definition bind {A B} (m : M A) (k : A -> M B) : M B :=
  fun st =>
    match m st with
    | (inl e, st') => (inl e, st')
    | (inr x, st') => k x st'
    end.

Definition lift {A} (r : exception + A) : M A := fun st => (r, st).

(** [try: body except <class> as e: handler]. *)
Definition try_except {A} (body : M A) (catches : exception -> bool)
    (handler : exception -> M A) : M A :=
  fun st =>
    match body st with
    | (inl e, st') => if catches e then handler e st' else (inl e, st')
    | r => r
    end.

Definition emit (ev : event) : M unit :=
  fun st => (inr tt, {| world := world st; trace := trace st ++ [ev] |}).

Definition progress (fraction : Q) (desc : pystr) : M unit :=
  emit (Progress fraction desc).

Definition call_model (req : GenerateRequest) : M pystr :=
  fun st =>
    let (r, w) := generate_content req (world st) in
    (r, {| world := w; trace := trace st ++ [ModelBegin req; ModelEnd] |}).

Definition call_search (params : SearchParams) : M ProviderData :=
  fun st =>
    let (r, w) := get_dict params (world st) in
    (r, {| world := w; trace := trace st ++ [SearchBegin params; SearchEnd] |}).

#[global] Instance M_ret : MRet M := @ret.
#[global] Instance M_bind : MBind M := fun A B k m => bind m k.

(** [search_web], lines 58-86. *)
Definition normalize (r : gmap (list N) (list N)) : gmap (list N) (list N) :=
  let title := default (lit "No title") (r !! lit "title") in
  let url := default [] (r !! lit "link") in
  let snippet := default [] (r !! lit "snippet") in
  {[ lit "title" := title; lit "url" := url; lit "snippet" := snippet ]}.

Definition search_params (query : pystr) : SearchParams :=
  {| q := query; engine := lit "google"; api_key := SERPAPI_KEY; num := 5 |}.

Definition search_output (query reason : pystr)
    (results : list (gmap (list N) (list N))) : SearchOutcome :=
  {| out_query := query;
     out_reason := reason;
     results := results;
     summary := lit "Top " ++ str_of_nat (length results)
                ++ lit " search results for '" ++ query ++ lit "'" |}.

Definition search_web (query reason : pystr) : M pystr :=
  if bool_decide (SERPAPI_KEY = []) then
    raise (ValueError (lit "Missing SERPAPI_KEY environment variable"))
  else
    data ← call_search (search_params query);
    let results :=
      foldl (fun results r => results ++ [normalize r]) []
        (default [] (organic_results data)) in
    mret (json_dumps (search_output query reason results)).

(** One request to the model, lines 132-139 and 203-210. *)
Definition model_request (input_text : pystr) : GenerateRequest :=
  {| model := lit "gemini-2.0-flash-exp";
     contents := input_text;
     temperature := 7 # 10;
     response_mime_type := lit "application/json" |}.

Definition planner_input_text (query : pystr) : pystr :=
  SEARCH_PLANNER_INSTRUCTION ++ [LF; LF] ++ lit "Research Query: " ++ query
  ++ [LF; LF] ++ lit "Please provide the search plan in JSON format.".

(** [plan_searches], lines 125-149. *)
Definition plan_searches (query : pystr) : M WebSearchPlan :=
  progress (1 # 10) (MARK_BRAIN ++ lit " Planning research strategy...");;
  response_text ← call_model (model_request (planner_input_text query));
  data ← try_except (lift (extract_json json_loads response_text))
           is_JSONDecodeError
           (fun e => raise (ValueError
              (lit "Failed to parse JSON from Gemini response: " ++ exception_str e
               ++ [LF] ++ lit "Response preview: " ++ take 500 response_text)));
  search_plan ← lift (WebSearchPlan_init data);
  progress (2 # 10)
    (MARK_CHECK ++ lit " Planned " ++ str_of_nat (length (searches search_plan))
     ++ lit " searches");;
  mret search_plan.

(** [json.loads(result_json)] in [perform_searches]. *)
Definition loads_outcome (result_json : pystr) : M SearchOutcome :=
  match json_loads_outcome result_json with
  | inl e => raise e
  | inr outcome => mret outcome
  end.

(** [perform_searches], lines 150-162: the loop, then the function. *)
Fixpoint perform_searches_loop (total : nat) (items : list (nat * WebSearchItem))
    (results : list SearchOutcome) : M (list SearchOutcome) :=
  match items with
  | [] => mret results
  | (i, item) :: rest =>
    progress ((2 # 10) + (5 # 10) * inject_Z (Z.of_nat i) / inject_Z (Z.of_nat total))
      (MARK_LENS ++ lit " Searching (" ++ str_of_nat i ++ lit "/" ++ str_of_nat total
       ++ lit "): " ++ take 50 (query item) ++ lit "...");;
    result_json ← search_web (query item) (reason item);
    outcome ← loads_outcome result_json;
    emit (Sleep (1 # 10));;
    perform_searches_loop total rest (results ++ [outcome])
  end.

Definition perform_searches (search_plan : WebSearchPlan) : M (list SearchOutcome) :=
  let total := length (searches search_plan) in
  results ← perform_searches_loop total (enumerate 1 (searches search_plan)) [];
  progress (7 # 10) (MARK_CHECK ++ lit " Completed all searches");;
  mret results.

(** [write_report], lines 184-221. *)
Definition write_report (query : pystr) (search_results : list SearchOutcome)
  : M ReportData :=
  progress (75 # 100) (MARK_MEMO ++ lit " Writing comprehensive report...");;
  response_text ← call_model (model_request (report_input_text query search_results));
  data ← lift (extract_json json_loads response_text);
  report ← lift (ReportData_init data);
  let references_md := build_references search_results in
  let report :=
    {| short_summary := short_summary report;
       markdown_report := markdown_report report ++ [LF; LF] ++ references_md;
       follow_up_questions := follow_up_questions report |} in
  progress 1 (MARK_CHECK ++ lit " Report completed!");;
  mret report.

(** [run_research_pipeline], lines 223-256: the body of the [try], then
    the function with its [except Exception]. *)
Definition pipeline_body (query : pystr) : M (pystr * pystr * pystr) :=
  if query_rejected query then mret (VALIDATION_MESSAGE, [], [])
  else
    progress 0 (MARK_ROCKET ++ lit " Starting research pipeline...");;
    search_plan ← plan_searches query;
    search_results ← perform_searches search_plan;
    report ← write_report query search_results;
    let follow_up :=
      join [LF]
        ((fun '(i, question) => str_of_nat i ++ lit ". " ++ question)
         <$> enumerate 1 (follow_up_questions report)) in
    mret (short_summary report, markdown_report report, follow_up).

Definition run_research_pipeline (query : pystr) : M (pystr * pystr * pystr) :=
  try_except (pipeline_body query) (fun _ => true)
    (fun e => mret (ERROR_PREFIX ++ exception_str e, [], [])).
End Pipeline.

(** ** Notions the statements use *)

(** What escaping does to one character. *)
Definition escape_char (c : N) : pystr :=
  if (c =? BACKSLASH)%N then [BACKSLASH; BACKSLASH]
  else if (c =? DQUOTE)%N then [BACKSLASH; DQUOTE]
  else if (c =? LF)%N then [BACKSLASH; 110%N]
  else if (c =? CR)%N then [BACKSLASH; 114%N]
  else [c].

Definition special (c : N) : Prop :=
  c = BACKSLASH \/ c = DQUOTE \/ c = LF \/ c = CR.

(** A text in which the four characters occur only escaped: it is made of
    plain characters and of the two-character escapes. *)
Inductive escaped : pystr -> Prop :=
| escaped_nil : escaped []
| escaped_plain c s : ~ special c -> escaped s -> escaped (c :: s)
| escaped_pair c s :
    c = BACKSLASH \/ c = DQUOTE \/ c = 110%N \/ c = 114%N ->
    escaped s -> escaped (BACKSLASH :: c :: s).

(** Reading the escapes back. *)
Fixpoint unescape (s : pystr) : pystr :=
  match s with
  | [] => []
  | c :: rest =>
    if (c =? BACKSLASH)%N then
      match rest with
      | [] => [c]
      | d :: rest' =>
        (if (d =? 110)%N then LF else if (d =? 114)%N then CR else d) :: unescape rest'
      end
    else c :: unescape rest
  end.

(** The report prompt as a form with holes: [query] for the original query
    and, for each outcome, its query, its reason and its list of urls. *)
Definition digest_entry (i : nat) (entry : pystr * pystr * list pystr) : pystr :=
  let '(query, reason, urls) := entry in
  lit "Search " ++ str_of_nat (i + 1) ++ lit ": " ++ query ++ [LF]
  ++ lit "Reason: " ++ reason ++ [LF]
  ++ lit "References:" ++ [LF]
  ++ join [LF] ((fun '(j, url) => str_of_nat (j + 1) ++ lit ". " ++ url) <$> enumerate 0 urls).

Definition prompt_form (query : pystr) (entries : list (pystr * pystr * list pystr)) : pystr :=
  REPORT_WRITER_INSTRUCTION ++ [LF; LF]
  ++ lit "Original Research Query: " ++ query ++ [LF; LF]
  ++ lit "Search Results:" ++ [LF]
  ++ join [LF; LF] ((fun '(i, entry) => digest_entry i entry) <$> enumerate 0 entries)
  ++ [LF; LF]
  ++ lit "Please write a comprehensive report in JSON format with short_summary, markdown_report, and follow_up_questions.".

(** What [write_report] puts into the holes. *)
Definition escaped_outcome (r : SearchOutcome) : pystr * pystr * list pystr :=
  (json_safe (out_query r), json_safe (out_reason r),
   (fun res => json_safe (default [] (res !! lit "url"))) <$> results r).

(** The records of all outcomes in iteration order, the pair a record is
    filed under, and the pairs that get an entry: the first occurrence of
    each pair that has a url. *)
Definition all_results (search_results : list SearchOutcome) : list (gmap (list N) (list N)) :=
  search_results ≫= results.

Definition key_of (res : gmap (list N) (list N)) : list N * list N :=
  (title_of res, url_of res).

Fixpoint first_occurrences (keys : list (list N * list N)) : list (list N * list N) :=
  match keys with
  | [] => []
  | k :: rest => k :: filter (fun k' => k' ≠ k) (first_occurrences rest)
  end.

Definition emitted (search_results : list SearchOutcome) : list (list N * list N) :=
  first_occurrences (filter (fun k => k.2 ≠ []) (key_of <$> all_results search_results)).

(** One line of the references section. *)
Definition reference_entry (n : nat) (k : list N * list N) : pystr :=
  str_of_nat n ++ lit ". [" ++ k.1 ++ lit "](" ++ k.2 ++ lit ")" ++ [LF].

Definition REFERENCES_HEADING : pystr := lit "## References" ++ [LF; LF].

(** The lines of the entries [ks], numbered from [start]. *)
Definition render (start : nat) (ks : list (list N * list N)) : pystr :=
  mjoin ((fun '(n, k) => reference_entry n k) <$> enumerate start ks).

(** The entries the loop adds for the pairs [ks] once [seen] has been filed. *)
Definition fresh (seen : gset (list N * list N)) (ks : list (list N * list N))
  : list (list N * list N) :=
  filter (fun k => k ∉ seen) (first_occurrences (filter (fun k => k.2 ≠ []) ks)).

(** The search provider's events of a trace. *)
Definition is_search_event (ev : event) : bool :=
  match ev with
  | SearchBegin _ | SearchEnd => true
  | _ => false
  end.

Definition search_events (tr : list event) : list event :=
  filter (fun ev => is_search_event ev = true) tr.

(** The characters of a query that are not white space. *)
Definition non_whitespace (s : pystr) : list N :=
  filter (fun c => isspace c = false) s.

(** A mapping that carries the two strings of a plan item. *)
Definition plan_item_of (v : json) (item : WebSearchItem) : Prop :=
  exists m, v = JObj m
    /\ dict_get m (lit "reason") = Some (JStr (reason item))
    /\ dict_get m (lit "query") = Some (JStr (query item)).

(** The provider's events of one plan item. *)
Definition item_events (item : WebSearchItem) : list event :=
  [SearchBegin {| q := query item; engine := lit "google"; api_key := SERPAPI_KEY; num := 5 |};
   SearchEnd].

Section Notions.
Context `{Env}.

(** The state in which the first stage starts: the start of the run has
    been reported. *)
Definition started (st : state) : state :=
  {| world := world st;
     trace := trace st ++ [Progress 0 (MARK_ROCKET ++ lit " Starting research pipeline...")] |}.

(** The state after one call of the provider that left the world [w]. *)
Definition after_search (st : state) (query : pystr) (w : W) : state :=
  {| world := w; trace := trace st ++ [SearchBegin (search_params query); SearchEnd] |}.

(** Whatever happens, [m] adds the events [evs] to the trace, and then
    possibly more. *)
Definition starts_with {A} (m : M A) (evs : list event) : Prop :=
  forall st, exists tail, trace (m st).2 = trace st ++ evs ++ tail.

(** A stage of the run on [query] from [st] raises [e] and leaves [st']:
    the planner, or the search stage on the plan of the planner, or the
    report stage on the outcomes of the search stage. *)
Inductive stage_raises (query : pystr) (st : state) (e : exception) (st' : state) : Prop :=
| planner_raises :
    plan_searches query (started st) = (inl e, st') ->
    stage_raises query st e st'
| search_raises plan st1 :
    plan_searches query (started st) = (inr plan, st1) ->
    perform_searches plan st1 = (inl e, st') ->
    stage_raises query st e st'
| report_raises plan st1 outcomes st2 :
    plan_searches query (started st) = (inr plan, st1) ->
    perform_searches plan st1 = (inr outcomes, st2) ->
    write_report query outcomes st2 = (inl e, st') ->
    stage_raises query st e st'.
End Notions.

(** ** A sample environment

    A small JSON decoder and encoder and scripted answers of the two outside
    services, to run the pipeline on concrete inputs. The decoder covers
    objects, arrays, strings with the common escapes, integers and the three
    literals. *)
Module Sample.

Definition is_ws (c : N) : bool := ((c =? 32) || (c =? 9) || (c =? 10) || (c =? 13))%N.

Fixpoint skip_ws (s : pystr) : pystr :=
  match s with
  | [] => []
  | c :: s' => if is_ws c then skip_ws s' else s
  end.

(** The character an escape stands for. *)
Definition unescape_char (d : N) : option N :=
  if (d =? DQUOTE)%N then Some DQUOTE
  else if (d =? BACKSLASH)%N then Some BACKSLASH
  else if (d =? 47)%N then Some 47%N
  else if (d =? 110)%N then Some LF
  else if (d =? 114)%N then Some CR
  else if (d =? 116)%N then Some 9%N
  else if (d =? 98)%N then Some 8%N
  else if (d =? 102)%N then Some 12%N
  else None.

(** A string literal after its opening quote: its characters and the text
    after the closing quote. *)
Fixpoint parse_chars (s : pystr) : option (pystr * pystr) :=
  match s with
  | [] => None
  | c :: rest =>
    if (c =? DQUOTE)%N then Some ([], rest)
    else if (c =? BACKSLASH)%N then
      match rest with
      | [] => None
      | d :: rest' =>
        match unescape_char d, parse_chars rest' with
        | Some c', Some (t, r) => Some (c' :: t, r)
        | _, _ => None
        end
      end
    else
      match parse_chars rest with
      | Some (t, r) => Some (c :: t, r)
      | None => None
      end
  end.

Definition is_digit (c : N) : bool := ((48 <=? c) && (c <=? 57))%N.

Fixpoint parse_digits (acc : N) (s : pystr) : N * pystr :=
  match s with
  | [] => (acc, [])
  | c :: rest => if is_digit c then parse_digits (10 * acc + (c - 48))%N rest else (acc, s)
  end.

(** [s] without the prefix [p], when it starts with it. *)
Fixpoint strip_prefix (p s : pystr) : option pystr :=
  match p, s with
  | [], _ => Some s
  | a :: p', b :: s' => if (a =? b)%N then strip_prefix p' s' else None
  | _ :: _, [] => None
  end.

(** The items of an array after its opening bracket, [pv] reading one value. *)
Fixpoint parse_items (pv : pystr -> option (json * pystr)) (n : nat) (s : pystr)
  : option (list json * pystr) :=
  match n with
  | 0 => None
  | S n' =>
    match pv s with
    | None => None
    | Some (v, r) =>
      match skip_ws r with
      | c :: r' =>
        if (c =? 44)%N then
          match parse_items pv n' r' with
          | Some (vs, r'') => Some (v :: vs, r'')
          | None => None
          end
        else if (c =? 93)%N then Some ([v], r')
        else None
      | [] => None
      end
    end
  end.

(** The members of an object after its opening brace. *)
Fixpoint parse_members (pv : pystr -> option (json * pystr)) (n : nat) (s : pystr)
  : option (list (pystr * json) * pystr) :=
  match n with
  | 0 => None
  | S n' =>
    match skip_ws s with
    | c :: s1 =>
      if (c =? DQUOTE)%N then
        match parse_chars s1 with
        | None => None
        | Some (k, s2) =>
          match skip_ws s2 with
          | c2 :: s3 =>
            if (c2 =? 58)%N then
              match pv s3 with
              | None => None
              | Some (v, r) =>
                match skip_ws r with
                | c3 :: r' =>
                  if (c3 =? 44)%N then
                    match parse_members pv n' r' with
                    | Some (ms, r'') => Some ((k, v) :: ms, r'')
                    | None => None
                    end
                  else if (c3 =? RBRACE)%N then Some ([(k, v)], r')
                  else None
                | [] => None
                end
              end
            else None
          | [] => None
          end
        end
      else None
    | [] => None
    end
  end.

(** One value; [fuel] bounds the nesting of arrays and objects. *)
Fixpoint parse_value (fuel : nat) (s : pystr) : option (json * pystr) :=
  match skip_ws s with
  | [] => None
  | c :: rest =>
    if (c =? DQUOTE)%N then
      match parse_chars rest with
      | Some (t, r) => Some (JStr t, r)
      | None => None
      end
    else if (c =? 91)%N then
      match fuel with
      | 0 => None
      | S fuel' =>
        match skip_ws rest with
        | 93%N :: r => Some (JArr [], r)
        | _ =>
          match parse_items (parse_value fuel') (length rest) rest with
          | Some (vs, r) => Some (JArr vs, r)
          | None => None
          end
        end
      end
    else if (c =? LBRACE)%N then
      match fuel with
      | 0 => None
      | S fuel' =>
        match skip_ws rest with
        | 125%N :: r => Some (JObj [], r)
        | _ =>
          match parse_members (parse_value fuel') (length rest) rest with
          | Some (ms, r) => Some (JObj ms, r)
          | None => None
          end
        end
      end
    else if (c =? 45)%N then
      match rest with
      | d :: _ =>
        if is_digit d then
          let (n, r) := parse_digits 0 rest in Some (JNum (- Z.of_N n), r)
        else None
      | [] => None
      end
    else if is_digit c then
      let (n, r) := parse_digits 0 (c :: rest) in Some (JNum (Z.of_N n), r)
    else
      match strip_prefix (lit "null") (c :: rest),
            strip_prefix (lit "true") (c :: rest),
            strip_prefix (lit "false") (c :: rest) with
      | Some r, _, _ => Some (JNull, r)
      | _, Some r, _ => Some (JBool true, r)
      | _, _, Some r => Some (JBool false, r)
      | _, _, _ => None
      end
  end.

(** The decoder: one value and nothing but white space after it. *)
Definition decode (text : pystr) : pystr + json :=
  match parse_value (length text) text with
  | Some (v, rest) =>
    match skip_ws rest with
    | [] => inr v
    | _ => inl (lit "Extra data")
    end
  | None => inl (lit "Expecting value")
  end.

(** The lengths of the runs of digits outside string literals, in the order
    of the text: in a JSON text these are the digits of its integers. *)
Fixpoint digit_runs (in_string escaped : bool) (run : nat) (s : pystr) : list nat :=
  match s with
  | [] => [run]
  | c :: rest =>
    if in_string then
      if escaped then digit_runs true false 0 rest
      else if (c =? BACKSLASH)%N then digit_runs true true 0 rest
      else if (c =? DQUOTE)%N then digit_runs false false 0 rest
      else digit_runs true false 0 rest
    else if (c =? DQUOTE)%N then run :: digit_runs true false 0 rest
    else if is_digit c then digit_runs false false (S run) rest
    else run :: digit_runs false false 0 rest
  end.

(** The interpreter's limit on the digits of an integer it converts
    ([sys.get_int_max_str_digits()], 4300 unless it is changed) and the
    message of the [ValueError] it raises beyond it. *)
Definition MAX_STR_DIGITS : nat := 4300.

(** The first run that is longer than the limit. *)
Fixpoint first_over (runs : list nat) : option nat :=
  match runs with
  | [] => None
  | digits :: rest =>
    if digits <=? MAX_STR_DIGITS then first_over rest else Some digits
  end.

Definition digits_message (digits : nat) : pystr :=
  lit "Exceeds the limit (4300 digits) for integer string conversion: value has "
  ++ str_of_nat digits
  ++ lit " digits; use sys.set_int_max_str_digits() to increase the limit".

(** [json.loads]: a text the decoder refuses raises [JSONDecodeError]; a
    text it reads in which an integer has more digits than the limit raises
    [ValueError]. (A text with such an integer before the place where it
    stops being JSON is taken for the first kind here.) *)
Definition loads (text : pystr) : exception + json :=
  match decode text with
  | inl reason => inl (JSONDecodeError reason)
  | inr v =>
    match first_over (digit_runs false false 0 text) with
    | Some digits => inl (ValueError (digits_message digits))
    | None => inr v
    end
  end.

(** The encoder of search outputs, in the layout of [json.dumps]. *)
Definition encode_str (s : pystr) : pystr := quoted (json_safe s).

Definition encode_members (members : list (pystr * pystr)) : pystr :=
  join (lit ", ") ((fun '(k, text) => encode_str k ++ lit ": " ++ text) <$> members).

Definition encode_object (members : list (pystr * pystr)) : pystr :=
  [LBRACE] ++ encode_members members ++ [RBRACE].

Definition encode_array (items : list pystr) : pystr :=
  [91%N] ++ join (lit ", ") items ++ [93%N].

Definition encode_record (r : gmap (list N) (list N)) : pystr :=
  encode_object ((fun '(k, v) => (k, encode_str v)) <$> map_to_list r).

Definition encode_outcome (o : SearchOutcome) : pystr :=
  encode_object
    [(lit "query", encode_str (out_query o));
     (lit "reason", encode_str (out_reason o));
     (lit "results", encode_array (encode_record <$> results o));
     (lit "summary", encode_str (summary o))].

(** A decoded value read as a search output. *)
Definition as_str (v : json) : option pystr :=
  match v with
  | JStr s => Some s
  | _ => None
  end.

Definition as_record (v : json) : option (gmap (list N) (list N)) :=
  match v with
  | JObj members =>
    list_to_map <$> mapM (fun '(k, v) => pair k <$> as_str v) members
  | _ => None
  end.

Definition as_records (v : json) : option (list (gmap (list N) (list N))) :=
  match v with
  | JArr items => mapM as_record items
  | _ => None
  end.

Definition as_outcome (v : json) : option SearchOutcome :=
  match v with
  | JObj members =>
    query ← dict_get members (lit "query") ≫= as_str;
    reason ← dict_get members (lit "reason") ≫= as_str;
    results ← dict_get members (lit "results") ≫= as_records;
    summary ← dict_get members (lit "summary") ≫= as_str;
    Some {| out_query := query; out_reason := reason; results := results;
            summary := summary |}
  | _ => None
  end.

Definition decode_outcome (text : pystr) : pystr + SearchOutcome :=
  match decode text with
  | inl reason => inl reason
  | inr v =>
    match as_outcome v with
    | Some o => inr o
    | None => inl (lit "Expecting a search output")
    end
  end.

(** [json.loads] on a search output, which holds no number. *)
Definition loads_search_output (text : pystr) : exception + SearchOutcome :=
  match decode_outcome text with
  | inl reason => inl (JSONDecodeError reason)
  | inr o => inr o
  end.

(** The values the encoder writes: a record and a search output. *)
Definition record_json (r : gmap (list N) (list N)) : json :=
  JObj ((fun '(k, v) => (k, JStr v)) <$> map_to_list r).

Definition outcome_json (o : SearchOutcome) : json :=
  JObj [(lit "query", JStr (out_query o));
        (lit "reason", JStr (out_reason o));
        (lit "results", JArr (record_json <$> results o));
        (lit "summary", JStr (summary o))].

(** [pv] reads the text [text] as the value [v], whatever follows. *)
Definition reads (pv : pystr -> option (json * pystr)) (text : pystr) (v : json) : Prop :=
  forall rest, pv (text ++ rest) = Some (v, rest).

(** The world: the answers the model and the provider are going to give,
    one per call; a service that has run out of answers raises. *)
Record script := {
  model_answers : list (exception + pystr);
  provider_answers : list (exception + ProviderData)
}.

Definition scripted_model (req : GenerateRequest) (w : script)
  : (exception + pystr) * script :=
  match model_answers w with
  | [] => (inl (ClientError (lit "no answer")), w)
  | answer :: rest =>
    (answer, {| model_answers := rest; provider_answers := provider_answers w |})
  end.

Definition scripted_provider (params : SearchParams) (w : script)
  : (exception + ProviderData) * script :=
  match provider_answers w with
  | [] => (inl (ClientError (lit "no answer")), w)
  | answer :: rest =>
    (answer, {| model_answers := model_answers w; provider_answers := rest |})
  end.

(** A provider that answers every query with the same data. *)
Definition fixed_provider (data : ProviderData) (params : SearchParams) (w : script)
  : (exception + ProviderData) * script :=
  (inr data, w).

(** The first line of pydantic's message. *)
Definition error_str (model : pystr) (errors : list error_detail) : pystr :=
  str_of_nat (length errors) ++ lit " validation error for " ++ model.

Definition env (provider : SearchParams -> script -> (exception + ProviderData) * script)
  : Env :=
  {| W := script;
     json_loads := loads;
     json_dumps := encode_outcome;
     json_loads_outcome := loads_search_output;
     generate_content := scripted_model;
     get_dict := provider;
     validation_error_str := error_str;
     module_name := lit "__main__" |}.
End Sample.
(** ** Sample inputs *)

(** A model answer with prose around a plan of two searches. *)
Definition demo_plan_text : pystr :=
  lit "Here is the plan: {" ++ quoted (lit "searches") ++ lit ": [{"
  ++ quoted (lit "reason") ++ lit ": " ++ quoted (lit "background") ++ lit ", "
  ++ quoted (lit "query") ++ lit ": " ++ quoted (lit "qubit basics") ++ lit "}, {"
  ++ quoted (lit "reason") ++ lit ": " ++ quoted (lit "uses") ++ lit ", "
  ++ quoted (lit "query") ++ lit ": " ++ quoted (lit "quantum applications")
  ++ lit "}]} Good luck.".

Definition demo_plan : WebSearchPlan :=
  {| searches :=
       [{| reason := lit "background"; query := lit "qubit basics" |};
        {| reason := lit "uses"; query := lit "quantum applications" |}] |}.

(** A model answer whose only plan item has two empty strings. *)
Definition demo_empty_item_text : pystr :=
  lit "{" ++ quoted (lit "searches") ++ lit ": [{" ++ quoted (lit "reason") ++ lit ": "
  ++ quoted [] ++ lit ", " ++ quoted (lit "query") ++ lit ": " ++ quoted [] ++ lit "}]}".

Definition demo_empty_item_plan : WebSearchPlan :=
  {| searches := [{| reason := []; query := [] |}] |}.

(** An answer of the provider: a full record and one that has only a link. *)
Definition demo_data : ProviderData :=
  {| organic_results :=
       Some [ {[ lit "title" := lit "Qubits"; lit "link" := lit "https://q.example/a";
                 lit "snippet" := lit "What a qubit is" ]};
              {[ lit "link" := lit "https://q.example/b" ]} ] |}.

(** The planner answers; the provider answers the first query and refuses
    the second. *)
Definition demo_refused : Sample.script :=
  {| Sample.model_answers := [inr demo_plan_text];
     Sample.provider_answers := [inr demo_data; inl (ClientError (lit "Invalid API key"))] |}.

(** A model answer whose object holds an integer of 5000 digits. *)
Definition demo_long_integer_text : pystr :=
  lit "answer: {" ++ quoted (lit "n") ++ lit ": " ++ replicate 5000 49%N ++ lit "} end".

(** The parsed plan, and a plan whose item has no [query]. *)
Definition demo_plan_json : json :=
  JObj [(lit "searches",
         JArr [JObj [(lit "reason", JStr (lit "background"));
                     (lit "query", JStr (lit "qubit basics"))];
               JObj [(lit "reason", JStr (lit "uses"));
                     (lit "query", JStr (lit "quantum applications"))]])].

Definition demo_missing_query : list (list N * json) :=
  [(lit "searches", JArr [JObj [(lit "reason", JStr (lit "background"))]])].

Definition demo_empty_item : list (list N * json) :=
  [(lit "searches", JArr [JObj [(lit "reason", JStr []); (lit "query", JStr [])]])].

(** The planner answers with the plan of one empty item. *)
Definition demo_empty_item_script : Sample.script :=
  {| Sample.model_answers := [inr demo_empty_item_text]; Sample.provider_answers := [] |}.

(** The start of a run in the sample environment: the script to come and
    an empty trace. *)
Definition demo_start (provider : SearchParams -> Sample.script -> (exception + ProviderData) * Sample.script)
    (w : Sample.script) : @state (Sample.env provider) :=
  @Build_state (Sample.env provider) w [].

(** Outcomes in which the pair of the first record comes back at the end,
    with another snippet, and one record has no url. *)
Definition demo_record_a : gmap (list N) (list N) :=
  {[ lit "title" := lit "Qubits"; lit "url" := lit "https://q.example/a";
     lit "snippet" := lit "What a qubit is" ]}.

Definition demo_record_a' : gmap (list N) (list N) :=
  {[ lit "title" := lit "Qubits"; lit "url" := lit "https://q.example/a";
     lit "snippet" := lit "Qubits again" ]}.

Definition demo_record_b : gmap (list N) (list N) :=
  {[ lit "title" := lit "Gates"; lit "url" := lit "https://q.example/b" ]}.

Definition demo_record_no_url : gmap (list N) (list N) :=
  {[ lit "title" := lit "Untraceable" ]}.

Definition demo_outcomes : list SearchOutcome :=
  [{| out_query := lit "qubit basics"; out_reason := lit "background";
      results := [demo_record_a; demo_record_no_url]; summary := [] |};
   {| out_query := lit "quantum applications"; out_reason := lit "uses";
      results := [demo_record_b; demo_record_a']; summary := [] |}].

Definition demo_outcomes_exchanged : list SearchOutcome :=
  [{| out_query := lit "qubit basics"; out_reason := lit "background";
      results := [demo_record_a'; demo_record_no_url]; summary := [] |};
   {| out_query := lit "quantum applications"; out_reason := lit "uses";
      results := [demo_record_b; demo_record_a]; summary := [] |}].

(** ** Further notions *)

#[global] Instance special_dec c : Decision (special c).
Proof. unfold special. apply _. Defined.

(** White space only. *)
Definition blank (s : pystr) : Prop := Forall (fun c => isspace c = true) s.

(** The calls of the model in a trace, and a trace without events of the
    model, or of the provider. *)
Definition is_model_event (ev : event) : bool :=
  match ev with
  | ModelBegin _ | ModelEnd => true
  | _ => false
  end.

Definition model_requests (tr : list event) : list GenerateRequest :=
  omap (fun ev => match ev with ModelBegin req => Some req | _ => None end) tr.

Definition no_model (tr : list event) : Prop :=
  Forall (fun ev => is_model_event ev = false) tr.

Definition no_search (tr : list event) : Prop :=
  Forall (fun ev => is_search_event ev = false) tr.

(** What the user sees of the search stage and when: the progress labels
    and, between them, the queries sent to the provider. *)
Definition outline (tr : list event) : list (pystr + pystr) :=
  omap (fun ev =>
          match ev with
          | Progress _ desc => Some (inl desc)
          | SearchBegin params => Some (inr (q params))
          | _ => None
          end) tr.

(** The label of the [i]-th search of [total], line 156. *)
Definition searching_label (total i : nat) (item : WebSearchItem) : pystr :=
  MARK_LENS ++ lit " Searching (" ++ str_of_nat i ++ lit "/" ++ str_of_nat total
  ++ lit "): " ++ take 50 (query item) ++ lit "...".

(** The follow-up questions as [run_research_pipeline] lays them out,
    line 250. *)
Definition numbered_questions (questions : list pystr) : pystr :=
  join [LF] ((fun '(i, question) => str_of_nat i ++ lit ". " ++ question)
             <$> zip (seq 1 (length questions)) questions).

Section MoreNotions.
Context `{Env}.

(** Whatever happens, the events [m] adds to the trace satisfy [P]. *)
Definition emits {A} (m : M A) (P : list event -> Prop) : Prop :=
  forall st, exists tail, trace (m st).2 = trace st ++ tail /\ P tail.

(** The state after one call of the model that left the world [w]. *)
Definition after_model (st : state) (req : GenerateRequest) (w : W) : state :=
  {| world := w; trace := trace st ++ [ModelBegin req; ModelEnd] |}.

(** The state after a progress report. *)
Definition reported (st : state) (fraction : Q) (desc : pystr) : state :=
  {| world := world st; trace := trace st ++ [Progress fraction desc] |}.

(** The provider asked for the queries of [items] one after the other from
    the world [w]: the answers and the world they leave when every call
    answers, and otherwise the exception of the first call that raises and
    the world that call leaves. *)
Fixpoint asked (items : list WebSearchItem) (w : W) : (exception + list ProviderData) * W :=
  match items with
  | [] => (inr [], w)
  | item :: rest =>
    match get_dict (search_params (query item)) w with
    | (inl e, w') => (inl e, w')
    | (inr data, w') =>
      match asked rest w' with
      | (inl e, w'') => (inl e, w'')
      | (inr datas, w'') => (inr (data :: datas), w'')
      end
    end
  end.
End MoreNotions.

(** ** More sample inputs *)

(** A model answer with a report, and the mapping it holds. *)
Definition demo_report_text : pystr :=
  lit "{" ++ quoted (lit "short_summary") ++ lit ": " ++ quoted (lit "Qubits in brief") ++ lit ", "
  ++ quoted (lit "markdown_report") ++ lit ": " ++ quoted (lit "# Qubits") ++ lit ", "
  ++ quoted (lit "follow_up_questions") ++ lit ": [" ++ quoted (lit "What next?") ++ lit ", "
  ++ quoted (lit "Who builds them?") ++ lit "]}".



(** What [search_web] makes of the sample answer of the provider, and the
    outcomes of the sample plan when the provider gives that answer twice. *)
Definition demo_records : list (gmap (list N) (list N)) :=
  [ {[ lit "title" := lit "Qubits"; lit "url" := lit "https://q.example/a";
       lit "snippet" := lit "What a qubit is" ]};
    {[ lit "title" := lit "No title"; lit "url" := lit "https://q.example/b";
       lit "snippet" := [] ]} ].

Definition demo_found : list SearchOutcome :=
  [search_output (lit "qubit basics") (lit "background") demo_records;
   search_output (lit "quantum applications") (lit "uses") demo_records].

(** The references for these outcomes, and the report [write_report]
    returns for them. *)
Definition demo_references : pystr :=
  lit "## References" ++ [LF; LF]
  ++ lit "1. [Qubits](https://q.example/a)" ++ [LF]
  ++ lit "2. [No title](https://q.example/b)" ++ [LF].

Definition demo_report : ReportData :=
  {| short_summary := lit "Qubits in brief";
     markdown_report := lit "# Qubits" ++ [LF; LF] ++ demo_references;
     follow_up_questions := [lit "What next?"; lit "Who builds them?"] |}.

(** The model answers with the plan and then with the report, and the
    provider answers both queries. *)
Definition demo_complete : Sample.script :=
  {| Sample.model_answers := [inr demo_plan_text; inr demo_report_text];
     Sample.provider_answers := [inr demo_data; inr demo_data] |}.

(** The model answers the report prompt only. *)
Definition demo_report_script : Sample.script :=
  {| Sample.model_answers := [inr demo_report_text]; Sample.provider_answers := [] |}.

(** The planner's model answers with prose. *)
Definition demo_prose_text : pystr := lit "I cannot plan this research.".

Definition demo_prose : Sample.script :=
  {| Sample.model_answers := [inr demo_prose_text]; Sample.provider_answers := [] |}.

(** A query of two letters between white space. *)
Definition demo_padded : pystr := lit "  " ++ lit "ai" ++ [32%N; LF].

(** A small object between text that holds a closing brace before it and an
    opening brace after it. *)
Definition demo_object_text : pystr :=
  lit "} see: " ++ (LBRACE :: (quoted (lit "a") ++ lit ": " ++ quoted (lit "b")) ++ [RBRACE])
  ++ lit " {end".

(** All records of the sample outcomes in one outcome. *)
Definition demo_outcomes_merged : list SearchOutcome :=
  [{| out_query := []; out_reason := [];
      results := [demo_record_a; demo_record_no_url; demo_record_b; demo_record_a'];
      summary := lit "merged" |}].

(** A decidable proposition about concrete data, by evaluation. *)
Ltac by_evaluation :=
  match goal with
  | |- ?P => apply (bool_decide_unpack P); vm_compute; exact I
  end.

(** * Properties *)

(** ** Escaping *)

Lemma replace_app old new s t : replace old new (s ++ t) = replace old new s ++ replace old new t.
Proof. unfold replace. apply bind_app. Qed.

Lemma replace_cons old new c s :
  replace old new (c :: s) = (if (c =? old)%N then new else [c]) ++ replace old new s.
Proof. reflexivity. Qed.

Lemma replace_chain s :
  replace CR [BACKSLASH; 114%N]
      (replace LF [BACKSLASH; 110%N]
        (replace DQUOTE [BACKSLASH; DQUOTE]
          (replace BACKSLASH [BACKSLASH; BACKSLASH] s))) = s ≫= escape_char.
Proof.
  induction s as [|c s IH]; [done|].
  rewrite replace_cons, !replace_app, IH. cbn [mbind list_bind]. f_equal.
  unfold escape_char.
  destruct (N.eqb_spec c BACKSLASH) as [->|?]; [done|].
  destruct (N.eqb_spec c DQUOTE) as [->|?]; [done|].
  destruct (N.eqb_spec c LF) as [->|?]; [done|].
  destruct (N.eqb_spec c CR) as [->|?]; [done|].
  cbn. 
  repeat (rewrite (proj2 (N.eqb_neq _ _)) by done; cbn). done.
Qed.

Lemma json_safe_bind s : json_safe s = s ≫= escape_char.
Proof. destruct s; [done|]. apply replace_chain. Qed.

Lemma escape_char_cases c :
  (special c /\ exists d, escape_char c = [BACKSLASH; d] /\
     (d = BACKSLASH \/ d = DQUOTE \/ d = 110%N \/ d = 114%N) /\
     (if (d =? 110)%N then LF else if (d =? 114)%N then CR else d) = c)
  \/ (~ special c /\ escape_char c = [c]).
Proof.
  unfold escape_char, special.
  destruct (N.eqb_spec c BACKSLASH) as [->|?]; [left; split; [tauto|]; exists BACKSLASH; tauto|].
  destruct (N.eqb_spec c DQUOTE) as [->|?]; [left; split; [tauto|]; exists DQUOTE; tauto|].
  destruct (N.eqb_spec c LF) as [->|?]; [left; split; [tauto|]; exists 110%N; tauto|].
  destruct (N.eqb_spec c CR) as [->|?]; [left; split; [tauto|]; exists 114%N; tauto|].
  right. tauto.
Qed.

Lemma json_safe_escaped s : escaped (json_safe s).
Proof.
  rewrite json_safe_bind. induction s as [|c s IH]; [constructor|].
  cbn [mbind list_bind].
  destruct (escape_char_cases c) as [(_ & d & -> & Hd & _)|[Hc ->]]; cbn.
  - by apply escaped_pair.
  - by apply escaped_plain.
Qed.

Lemma unescape_json_safe s : unescape (json_safe s) = s.
Proof.
  rewrite json_safe_bind. induction s as [|c s IH]; [done|].
  cbn [mbind list_bind].
  destruct (escape_char_cases c) as [(_ & d & -> & _ & Hd)|[Hc ->]]; cbn.
  - fold (s ≫= escape_char). by rewrite IH, Hd.
  - fold (s ≫= escape_char). rewrite IH.
    destruct (N.eqb_spec c BACKSLASH) as [->|?]; [|done].
    destruct Hc. by left.
Qed.

Lemma escaped_no_newline s : escaped s -> (LF ∉ s) /\ CR ∉ s.
Proof.
  induction 1 as [|c s Hc _ [IH1 IH2] |c s Hc _ [IH1 IH2] ].
  - split; apply not_elem_of_nil.
  - unfold special in Hc. rewrite !not_elem_of_cons. intuition congruence.
  - rewrite !not_elem_of_cons. unfold LF, CR, BACKSLASH, DQUOTE in *.
    intuition (subst; congruence).
Qed.

Lemma enumerate_fmap {A B} (f : A -> B) n (l : list A) :
  enumerate n (f <$> l) = prod_map id f <$> enumerate n l.
Proof. revert n. induction l as [|x l IH]; intros n; cbn; [done|]. by rewrite IH. Qed.

Lemma results_summary_form search_results :
  results_summary search_results
  = join [LF; LF] ((fun '(i, entry) => digest_entry i entry)
                   <$> enumerate 0 (escaped_outcome <$> search_results)).
Proof.
  unfold results_summary.
  rewrite enumerate_fmap, <- list_fmap_compose.
  apply (f_equal (join [LF; LF])).
  apply list_fmap_ext. intros _ [i r] _. cbn.
  rewrite enumerate_fmap, <- list_fmap_compose.
  do 10 f_equal.
  apply (f_equal (join [LF])).
  apply list_fmap_ext. by intros _ [j res] _.
Qed.

Lemma report_input_text_form query search_results :
  report_input_text query search_results
  = prompt_form (json_safe query) (escaped_outcome <$> search_results).
Proof.
  unfold report_input_text, prompt_form. by rewrite results_summary_form.
Qed.

(** C9. [json_safe] replaces each backslash, double quote, newline and
    carriage return by its two-character escape: in the result the four
    characters occur only escaped, no newline and no carriage return is
    left, and the text is read back from it. The prompt of the report stage
    is the fixed form with the escaped query, and the escaped query, reason
    and urls of each outcome, in its holes. *)
Theorem json_safe_escapes query search_results :
  (forall text,
     json_safe text = text ≫= escape_char
     ∧ escaped (json_safe text)
     ∧ (LF ∉ json_safe text) ∧ (CR ∉ json_safe text)
     ∧ unescape (json_safe text) = text)
  ∧ report_input_text query search_results
    = prompt_form (json_safe query) (escaped_outcome <$> search_results).
Proof.
  split; [|apply report_input_text_form].
  intros text. split; [apply json_safe_bind|]. split; [apply json_safe_escaped|].
  pose proof (escaped_no_newline _ (json_safe_escaped text)) as [? ?].
  by rewrite unescape_json_safe.
Qed.

(** ** The JSON extractor *)

Lemma dotstar_rbrace_None s : dotstar_rbrace s = None <-> RBRACE ∉ s.
Proof.
  induction s as [|c s IH]; cbn.
  - split; [intros _; apply not_elem_of_nil|done].
  - rewrite not_elem_of_cons. destruct (dotstar_rbrace s) as [m|].
    + split; [done|]. intros [_ Hs]. by apply IH in Hs.
    + destruct (N.eqb_spec c RBRACE) as [->|Hc].
      * split; [done|]. by intros [? _].
      * split; [|done]. intros _. split; [congruence|]. by apply IH.
Qed.

Lemma dotstar_rbrace_last mid post :
  RBRACE ∉ post -> dotstar_rbrace (mid ++ RBRACE :: post) = Some (mid ++ [RBRACE]).
Proof.
  intros Hpost. induction mid as [|c mid IH]; cbn.
  - apply dotstar_rbrace_None in Hpost. by rewrite Hpost.
  - by rewrite IH.
Qed.

Lemma dotstar_rbrace_Some s m :
  dotstar_rbrace s = Some m ->
  exists mid post, s = mid ++ RBRACE :: post ∧ (RBRACE ∉ post) ∧ m = mid ++ [RBRACE].
Proof.
  revert m. induction s as [|c s IH]; intros m; cbn; [done|].
  destruct (dotstar_rbrace s) as [m'|] eqn:Hs.
  - intros [= <-]. destruct (IH _ eq_refl) as (mid & post & -> & Hpost & ->).
    by exists (c :: mid), post.
  - destruct (N.eqb_spec c RBRACE) as [->|Hc]; [|done].
    intros [= <-]. exists [], s. by apply dotstar_rbrace_None in Hs.
Qed.

(** The span from the first opening brace to the last closing brace. *)
Lemma re_search_greedy pre mid post :
  LBRACE ∉ pre -> RBRACE ∉ post ->
  re_search (pre ++ LBRACE :: mid ++ RBRACE :: post) = Some (LBRACE :: mid ++ [RBRACE]).
Proof.
  intros Hpre Hpost. induction pre as [|c pre IH]; cbn.
  - by rewrite dotstar_rbrace_last.
  - apply not_elem_of_cons in Hpre as [Hc Hpre].
    destruct (N.eqb_spec c LBRACE) as [->|_]; [done|]. by apply IH.
Qed.

Lemma last_rbrace s :
  RBRACE ∈ s -> exists mid post, s = mid ++ RBRACE :: post ∧ RBRACE ∉ post.
Proof.
  intros Hs. destruct (dotstar_rbrace s) as [m|] eqn:Hm.
  - apply dotstar_rbrace_Some in Hm as (mid & post & -> & Hpost & _). eauto.
  - by apply dotstar_rbrace_None in Hm.
Qed.

Lemma first_to_last a b c :
  exists pre mid post,
    a ++ LBRACE :: b ++ RBRACE :: c = pre ++ LBRACE :: mid ++ RBRACE :: post
    ∧ (LBRACE ∉ pre) ∧ RBRACE ∉ post.
Proof.
  induction a as [|x a (pre & mid & post & Heq & Hpre & Hpost)].
  - destruct (last_rbrace (b ++ RBRACE :: c)) as (mid & post & Heq & Hpost).
    { rewrite elem_of_app, elem_of_cons. auto. }
    exists [], mid, post. cbn. rewrite Heq. split; [done|]. split; [apply not_elem_of_nil|done].
  - destruct (decide (x = LBRACE)) as [->|Hx].
    + destruct (last_rbrace (a ++ LBRACE :: b ++ RBRACE :: c)) as (mid' & post' & Heq' & Hpost').
      { rewrite !elem_of_app, !elem_of_cons, elem_of_app, elem_of_cons. auto. }
      exists [], mid', post'. cbn. rewrite Heq'. split; [done|]. split; [apply not_elem_of_nil|done].
    + exists (x :: pre), mid, post. cbn. rewrite Heq. split; [done|].
      split; [|done]. rewrite not_elem_of_cons. auto.
Qed.

Lemma re_search_Some text span :
  re_search text = Some span ->
  exists pre mid post,
    text = pre ++ LBRACE :: mid ++ RBRACE :: post ∧ (LBRACE ∉ pre) ∧ (RBRACE ∉ post)
    ∧ span = LBRACE :: mid ++ [RBRACE].
Proof.
  induction text as [|c text IH]; cbn; [done|].
  destruct (N.eqb_spec c LBRACE) as [->|Hc].
  - destruct (dotstar_rbrace text) as [m|] eqn:Hm.
    + intros [= <-]. apply dotstar_rbrace_Some in Hm as (mid & post & -> & Hpost & ->).
      exists [], mid, post. repeat split; [apply not_elem_of_nil|done].
    + intros Hs. destruct (IH Hs) as (pre & mid & post & -> & _).
      apply dotstar_rbrace_None in Hm. exfalso. apply Hm.
      rewrite elem_of_app, elem_of_cons, elem_of_app, elem_of_cons. auto.
  - intros Hs. destruct (IH Hs) as (pre & mid & post & -> & Hpre & Hpost & ->).
    exists (c :: pre), mid, post. repeat split; [|done]. rewrite not_elem_of_cons. auto.
Qed.

Lemma re_search_None text :
  re_search text = None <-> ~ exists a b c, text = a ++ LBRACE :: b ++ RBRACE :: c.
Proof.
  split.
  - intros Hnone (a & b & c & ->).
    destruct (first_to_last a b c) as (pre & mid & post & Heq & Hpre & Hpost).
    rewrite Heq, re_search_greedy in Hnone; done.
  - intros Hno. destruct (re_search text) as [span|] eqn:Hs; [|done].
    apply re_search_Some in Hs as (pre & mid & post & -> & _). destruct Hno. eauto.
Qed.

Section ExtractorFacts.
Variable json_loads : pystr -> exception + json.

Lemma extract_json_eq text :
  extract_json json_loads text =
    match re_search text with
    | None => inl (ValueError (lit "No JSON object found in text."))
    | Some span =>
      match json_loads span with
      | inl (JSONDecodeError reason) =>
        inl (ValueError (lit "Failed to parse JSON: " ++ reason ++ [LF]
                         ++ lit "Preview: " ++ take 500 text))
      | inl e => inl e
      | inr v => inr v
      end
    end.
Proof.
  unfold extract_json. destruct (re_search text) as [span|]; [|done].
  by destruct (json_loads span) as [[]|].
Qed.

(** C1. A text with an opening brace and later a closing brace: the span
    that is read runs from the first opening brace to the last closing
    brace, and what [extract_json] returns is [json.loads] of that span. So
    when the text is one JSON object between two pieces of prose without
    braces, the value of that object is returned. *)
Theorem extract_json_first_to_last text a b c :
  text = a ++ LBRACE :: b ++ RBRACE :: c ->
  (exists pre mid post,
     text = pre ++ LBRACE :: mid ++ RBRACE :: post
     ∧ (LBRACE ∉ pre) ∧ (RBRACE ∉ post)
     ∧ re_search text = Some (LBRACE :: mid ++ [RBRACE])
     ∧ extract_json json_loads text =
         match json_loads (LBRACE :: mid ++ [RBRACE]) with
         | inl (JSONDecodeError reason) =>
           inl (ValueError (lit "Failed to parse JSON: " ++ reason ++ [LF]
                            ++ lit "Preview: " ++ take 500 text))
         | inl e => inl e
         | inr v => inr v
         end)
  ∧ (LBRACE ∉ a -> RBRACE ∉ c ->
     forall v, json_loads (LBRACE :: b ++ [RBRACE]) = inr v ->
               extract_json json_loads text = inr v).
Proof.
  intros ->. split.
  - destruct (first_to_last a b c) as (pre & mid & post & Heq & Hpre & Hpost).
    exists pre, mid, post. rewrite extract_json_eq, Heq.
    by rewrite re_search_greedy.
  - intros Ha Hc v Hv. by rewrite extract_json_eq, re_search_greedy, Hv.
Qed.

(** C2, as the code has it. The failures of [extract_json]: no opening
    brace with a closing brace after it; a span for which [json.loads]
    raises [JSONDecodeError], and then the message carries the reason and
    the first 500 characters of the text; and a span for which [json.loads]
    raises another exception, which is passed on as it is. There is no
    other failure, and the result is a function of the text alone. *)
Theorem extract_json_failures text :
  ((¬ exists a b c, text = a ++ LBRACE :: b ++ RBRACE :: c) ->
   extract_json json_loads text = inl (ValueError (lit "No JSON object found in text.")))
  ∧ (forall pre mid post reason,
       text = pre ++ LBRACE :: mid ++ RBRACE :: post ->
       LBRACE ∉ pre -> RBRACE ∉ post ->
       json_loads (LBRACE :: mid ++ [RBRACE]) = inl (JSONDecodeError reason) ->
       extract_json json_loads text =
         inl (ValueError (lit "Failed to parse JSON: " ++ reason ++ [LF]
                          ++ lit "Preview: " ++ take 500 text)))
  ∧ (forall pre mid post e,
       text = pre ++ LBRACE :: mid ++ RBRACE :: post ->
       LBRACE ∉ pre -> RBRACE ∉ post ->
       json_loads (LBRACE :: mid ++ [RBRACE]) = inl e ->
       is_JSONDecodeError e = false ->
       extract_json json_loads text = inl e)
  ∧ (forall e, extract_json json_loads text = inl e ->
       (e = ValueError (lit "No JSON object found in text.")
        ∧ ¬ exists a b c, text = a ++ LBRACE :: b ++ RBRACE :: c)
       ∨ (exists pre mid post reason,
            text = pre ++ LBRACE :: mid ++ RBRACE :: post
            ∧ (LBRACE ∉ pre) ∧ (RBRACE ∉ post)
            ∧ json_loads (LBRACE :: mid ++ [RBRACE]) = inl (JSONDecodeError reason)
            ∧ e = ValueError (lit "Failed to parse JSON: " ++ reason ++ [LF]
                              ++ lit "Preview: " ++ take 500 text))
       ∨ (exists pre mid post,
            text = pre ++ LBRACE :: mid ++ RBRACE :: post
            ∧ (LBRACE ∉ pre) ∧ (RBRACE ∉ post)
            ∧ json_loads (LBRACE :: mid ++ [RBRACE]) = inl e
            ∧ is_JSONDecodeError e = false)).
Proof.
  split; [|split; [|split]].
  - intros Hno. apply re_search_None in Hno. by rewrite extract_json_eq, Hno.
  - intros pre mid post reason -> Hpre Hpost Hloads.
    by rewrite extract_json_eq, re_search_greedy, Hloads.
  - intros pre mid post e -> Hpre Hpost Hloads Hother.
    rewrite extract_json_eq, re_search_greedy, Hloads by done. by destruct e.
  - intros e. rewrite extract_json_eq.
    destruct (re_search text) as [span|] eqn:Hs.
    + apply re_search_Some in Hs as (pre & mid & post & Heq & Hpre & Hpost & ->).
      destruct (json_loads _) as [e'|v] eqn:Hloads; [|done].
      destruct (is_JSONDecodeError e') eqn:Hkind.
      * destruct e' as [|reason| | | |]; try done.
        intros [= <-]. right; left. exists pre, mid, post, reason. by rewrite <- Heq.
      * intros He. right; right. exists pre, mid, post.
        assert (e' = e) as -> by (by destruct e'; simplify_eq).
        by rewrite <- Heq.
    + intros [= <-]. left. split; [done|]. by apply re_search_None.
Qed.
End ExtractorFacts.

(** ** Validation of the plan and of the query *)

Lemma validate_str_inr loc v s : validate_str loc v = inr s <-> v = Some (JStr s).
Proof. destruct v as [[]|]; cbn; naive_solver. Qed.

Lemma validate_WebSearchItem_inr loc v item :
  validate_WebSearchItem loc v = inr item <-> plan_item_of v item.
Proof.
  unfold plan_item_of. destruct item as [r q]. split.
  - destruct v as [| | | | |m]; cbn; try done.
    destruct (validate_str _ (dict_get m (lit "reason"))) as [e1|r'] eqn:Hr;
      destruct (validate_str _ (dict_get m (lit "query"))) as [e2|q'] eqn:Hq; try done.
    intros [= -> ->]. apply validate_str_inr in Hr, Hq. eauto.
  - intros (m & -> & Hr & Hq). cbn in *. by rewrite Hr, Hq.
Qed.

Lemma validate_items_inr loc i items plan_items :
  validate_items validate_WebSearchItem loc i items = inr plan_items
  <-> Forall2 plan_item_of items plan_items.
Proof.
  revert i plan_items. induction items as [|v items IH]; intros i plan_items; cbn.
  - split; [intros [= <-]; constructor|by inversion 1].
  - destruct (validate_WebSearchItem _ v) as [e|item] eqn:Hv.
    + split; [done|]. inversion 1 as [|? item ? ? Hitem]; subst.
      apply (validate_WebSearchItem_inr (loc ++ [LocIndex i])) in Hitem. congruence.
    + apply validate_WebSearchItem_inr in Hv.
      destruct (validate_items _ _ _ items) as [e|rest] eqn:Hrest.
      * split; [done|]. inversion 1; subst. exfalso.
        assert (inl e = inr l') as Habs by (rewrite <- Hrest; by apply IH). done.
      * apply IH in Hrest. split.
        -- intros [= <-]. by constructor.
        -- inversion 1 as [|? item' ? rest' Hitem' Hrest']; subst. f_equal.
           apply (validate_WebSearchItem_inr []) in Hv, Hitem'.
           apply (IH 0) in Hrest, Hrest'. congruence.
Qed.

Lemma validate_WebSearchPlan_inr kwargs plan :
  validate_WebSearchPlan kwargs = inr plan
  <-> exists items, dict_get kwargs (lit "searches") = Some (JArr items)
                    ∧ Forall2 plan_item_of items (searches plan).
Proof.
  unfold validate_WebSearchPlan, validate_list. destruct plan as [plan_items]. cbn.
  destruct (dict_get kwargs (lit "searches")) as [[| | | |items|]|]; try (split; [done|naive_solver]).
  destruct (validate_items _ _ _ items) as [e|xs] eqn:Hitems.
  - split; [done|]. intros (items' & [= <-] & Hall).
    apply (validate_items_inr [LocField (lit "searches")] 0) in Hall. congruence.
  - apply validate_items_inr in Hitems. split.
    + intros [= <-]. eauto.
    + intros (items' & [= <-] & Hall). f_equal.
      apply (validate_items_inr [] 0) in Hitems, Hall. congruence.
Qed.

Lemma WebSearchPlan_init_inr data plan :
  WebSearchPlan_init data = inr plan
  <-> exists kwargs items,
        data = JObj kwargs
        ∧ dict_get kwargs (lit "searches") = Some (JArr items)
        ∧ Forall2 plan_item_of items (searches plan).
Proof.
  unfold WebSearchPlan_init. destruct data as [| | | | |kwargs]; try (split; [done|naive_solver]).
  destruct (validate_WebSearchPlan kwargs) as [e|p] eqn:Hp.
  - split; [done|]. intros (kw & items & [= <-] & Hitems).
    assert (validate_WebSearchPlan kwargs = inr plan) by (apply validate_WebSearchPlan_inr; eauto).
    congruence.
  - split.
    + intros [= <-]. apply validate_WebSearchPlan_inr in Hp as (items & ? & ?). eauto 10.
    + intros (kw & items & [= <-] & Hitems).
      assert (validate_WebSearchPlan kwargs = inr plan) by (apply validate_WebSearchPlan_inr; eauto).
      congruence.
Qed.

Lemma WebSearchPlan_init_missing kwargs items m :
  dict_get kwargs (lit "searches") = Some (JArr items) ->
  JObj m ∈ items ->
  dict_get m (lit "reason") = None ∨ dict_get m (lit "query") = None ->
  exists errors, WebSearchPlan_init (JObj kwargs) = inl (ValidationError (lit "WebSearchPlan") errors).
Proof.
  intros Hs Hm Hmissing. cbn.
  destruct (validate_WebSearchPlan kwargs) as [e|p] eqn:Hp; [eauto|]. exfalso.
  apply validate_WebSearchPlan_inr in Hp as (items' & Hs' & Hall).
  assert (items' = items) as -> by congruence.
  apply list_elem_of_lookup in Hm as [i Hi].
  destruct (Forall2_lookup_l _ _ _ _ _ Hall Hi) as (item & _ & (m' & [= <-] & Hr & Hq)).
  destruct Hmissing; congruence.
Qed.

Lemma filter_lstrip (s : list N) : non_whitespace (lstrip s) = non_whitespace s.
Proof.
  unfold non_whitespace. induction s as [|c s IH]; [done|]. cbn [lstrip].
  destruct (isspace c) eqn:Hc; [|done].
  rewrite IH. by rewrite filter_cons_False by congruence.
Qed.

Lemma non_whitespace_strip (s : list N) : non_whitespace (strip s) = non_whitespace s.
Proof.
  pose proof filter_lstrip as Hl. unfold strip, rstrip, non_whitespace in *.
  by rewrite filter_reverse, Hl, filter_reverse, reverse_involutive, Hl.
Qed.

Lemma non_whitespace_le_strip (s : list N) : length (non_whitespace s) <= length (strip s).
Proof. rewrite <- non_whitespace_strip. apply length_filter. Qed.

(** ** The reference builder *)

Lemma render_cons start k ks :
  render start (k :: ks) = reference_entry start k ++ render (S start) ks.
Proof. reflexivity. Qed.

Lemma fresh_cons_new seen k ks :
  k ∉ seen -> k.2 ≠ [] -> fresh seen (k :: ks) = k :: fresh ({[ k ]} ∪ seen) ks.
Proof.
  intros Hk Hurl. unfold fresh. rewrite filter_cons_True by done. cbn [first_occurrences].
  rewrite filter_cons_True by done. f_equal.
  rewrite list_filter_filter. apply list_filter_iff. intros x. set_solver.
Qed.

Lemma fresh_cons_old seen k ks :
  ¬ ((k ∉ seen) ∧ k.2 ≠ []) -> fresh seen (k :: ks) = fresh seen ks.
Proof.
  intros Hk. unfold fresh. destruct (decide (k.2 ≠ [])) as [Hurl|Hurl].
  - rewrite filter_cons_True by done. cbn [first_occurrences].
    assert (k ∈ seen) by (destruct (decide (k ∈ seen)); tauto).
    rewrite filter_cons_False by tauto.
    rewrite list_filter_filter. apply list_filter_iff. intros x. set_solver.
  - by rewrite filter_cons_False.
Qed.

Lemma add_reference_new st res :
  key_of res ∉ seen st -> url_of res ≠ [] ->
  add_reference st res =
    {| seen := {[ key_of res ]} ∪ seen st;
       references_md := references_md st ++ reference_entry (counter st) (key_of res);
       counter := S (counter st) |}.
Proof.
  intros Hk Hurl. unfold add_reference. fold (key_of res).
  by rewrite !bool_decide_eq_true_2.
Qed.

Lemma add_reference_old st res :
  ¬ ((key_of res ∉ seen st) ∧ url_of res ≠ []) -> add_reference st res = st.
Proof.
  intros Hk. unfold add_reference. fold (key_of res).
  destruct (decide (key_of res ∉ seen st)); [|by rewrite bool_decide_eq_false_2].
  rewrite (bool_decide_eq_false_2 (url_of res ≠ [])) by tauto.
  by rewrite andb_false_r.
Qed.

Lemma foldl_add_reference rs st :
  let new := fresh (seen st) (key_of <$> rs) in
  references_md (foldl add_reference st rs) = references_md st ++ render (counter st) new
  ∧ counter (foldl add_reference st rs) = counter st + length new
  ∧ seen (foldl add_reference st rs) = list_to_set new ∪ seen st.
Proof.
  revert st. induction rs as [|res rs IH]; intros st; cbn [foldl fmap list_fmap].
  - cbn. rewrite app_nil_r. split; [done|]. split; [lia|set_solver].
  - destruct (decide ((key_of res ∉ seen st) ∧ url_of res ≠ [])) as [[Hk Hurl]|Hk].
    + cbn zeta. rewrite fresh_cons_new by done. rewrite add_reference_new by done.
      destruct (IH {| seen := {[ key_of res ]} ∪ seen st;
                      references_md := references_md st ++ reference_entry (counter st) (key_of res);
                      counter := S (counter st) |}) as (-> & -> & ->).
      cbn [seen references_md counter]. rewrite render_cons, <- app_assoc.
      split; [done|]. split; [cbn; lia|set_solver].
    + cbn zeta. rewrite fresh_cons_old by done. rewrite add_reference_old by done. apply IH.
Qed.

Lemma foldl_results srs st :
  foldl (fun st search => foldl add_reference st (results search)) st srs
  = foldl add_reference st (all_results srs).
Proof.
  revert st. induction srs as [|r srs IH]; intros st; [done|].
  unfold all_results. cbn [foldl mbind list_bind]. by rewrite foldl_app, IH.
Qed.

Lemma fresh_empty ks : fresh ∅ ks = first_occurrences (filter (fun k => k.2 ≠ []) ks).
Proof.
  unfold fresh. induction (first_occurrences _) as [|k l IH]; [done|].
  rewrite filter_cons_True by set_solver. by rewrite IH.
Qed.

Lemma build_references_emitted srs :
  build_references srs = REFERENCES_HEADING ++ render 1 (emitted srs).
Proof.
  unfold build_references. rewrite foldl_results.
  destruct (foldl_add_reference (all_results srs)
              {| seen := ∅; references_md := REFERENCES_HEADING; counter := 1 |}) as (Hmd & _).
  cbn [seen references_md counter] in Hmd. rewrite fresh_empty in Hmd. exact Hmd.
Qed.

Lemma elem_of_first_occurrences (k : list N * list N) ks : k ∈ first_occurrences ks <-> k ∈ ks.
Proof.
  induction ks as [|k' ks IH]; cbn; [done|].
  rewrite !elem_of_cons, list_elem_of_filter, IH.
  destruct (decide (k = k')); naive_solver.
Qed.

Lemma NoDup_first_occurrences ks : NoDup (first_occurrences ks).
Proof.
  induction ks as [|k ks IH]; cbn; [constructor|].
  constructor; [|by apply NoDup_filter].
  rewrite list_elem_of_filter. naive_solver.
Qed.

Lemma first_occurrences_app (l1 l2 : list (list N * list N)) :
  first_occurrences (l1 ++ l2)
  = first_occurrences l1 ++ filter (fun k => k ∉ l1) (first_occurrences l2).
Proof.
  induction l1 as [|x l1 IH]; cbn [app first_occurrences].
  - symmetry. induction (first_occurrences l2) as [|k l IHl]; [done|].
    rewrite filter_cons_True by apply not_elem_of_nil. by rewrite IHl.
  - rewrite IH, filter_app, list_filter_filter. do 2 f_equal.
    apply list_filter_iff. intros k. rewrite not_elem_of_cons. tauto.
Qed.

Lemma first_occurrence_position (before after : list (list N * list N)) k :
  k ∉ before ->
  exists tail, first_occurrences (before ++ k :: after) = first_occurrences before ++ k :: tail.
Proof.
  intros Hk. rewrite first_occurrences_app. cbn [first_occurrences].
  rewrite filter_cons_True by done. eauto.
Qed.

Lemma length_filter_NoDup {A} `{EqDecision A} (l : list A) x :
  NoDup l -> length (filter (fun y => y = x) l) = if decide (x ∈ l) then 1 else 0.
Proof.
  induction 1 as [|y l Hy _ IH]; [done|].
  destruct (decide (y = x)) as [->|Hne].
  - rewrite filter_cons_True by done. cbn. rewrite IH.
    rewrite decide_False by done. rewrite decide_True by apply list_elem_of_here. done.
  - rewrite filter_cons_False by done. rewrite IH.
    destruct (decide (x ∈ l)) as [Hin|Hnin].
    + rewrite decide_True; [done|]. by apply list_elem_of_further.
    + rewrite decide_False; [done|]. rewrite not_elem_of_cons. split; [congruence|done].
Qed.

Lemma keys_exchange (l : list (gmap (list N) (list N))) i j ri rj :
  l !! i = Some ri -> l !! j = Some rj -> key_of ri = key_of rj ->
  key_of <$> <[i := rj]> (<[j := ri]> l) = key_of <$> l.
Proof.
  intros Hi Hj Hkey. rewrite !list_fmap_insert.
  rewrite (list_insert_id (key_of <$> l) j).
  - apply list_insert_id. rewrite list_lookup_fmap, Hi. cbn. by rewrite Hkey.
  - rewrite list_lookup_fmap, Hj. cbn. by rewrite Hkey.
Qed.

Lemma elem_of_emitted srs k :
  k ∈ emitted srs <-> k ∈ key_of <$> all_results srs ∧ k.2 ≠ [].
Proof. unfold emitted. rewrite elem_of_first_occurrences, list_elem_of_filter. tauto. Qed.

(** C5. The entries of the references section are the pairs [emitted]
    gives, in that order: every pair with a url that some record carries,
    once, at the place of its first occurrence; a record without a url gets
    no entry. Exchanging two records that carry the same pair changes
    neither the entries nor the text, and the pair has one entry (none when
    its url is empty). *)
Theorem build_references_dedup search_results :
  let keys := key_of <$> all_results search_results in
  let entries := emitted search_results in
  build_references search_results
    = REFERENCES_HEADING
      ++ mjoin ((fun '(n, k) => reference_entry n k) <$> enumerate 1 entries)
  ∧ NoDup entries
  ∧ (forall k, k ∈ entries <-> k ∈ keys ∧ k.2 ≠ [])
  ∧ (forall before k after,
       filter (fun k => k.2 ≠ []) keys = before ++ k :: after -> k ∉ before ->
       exists tail, entries = first_occurrences before ++ k :: tail)
  ∧ (forall search_results' i j ri rj,
       all_results search_results !! i = Some ri ->
       all_results search_results !! j = Some rj ->
       key_of ri = key_of rj ->
       all_results search_results' = <[i := rj]> (<[j := ri]> (all_results search_results)) ->
       build_references search_results' = build_references search_results
       ∧ emitted search_results' = entries
       ∧ length (filter (fun k => k = key_of ri) entries)
         = if decide (url_of ri = []) then 0 else 1).
Proof.
  cbn zeta. split; [apply build_references_emitted|].
  split; [apply NoDup_first_occurrences|].
  split; [apply elem_of_emitted|]. split.
  - intros before k after Heq Hk. unfold emitted. rewrite Heq.
    by apply first_occurrence_position.
  - intros srs' i j ri rj Hi Hj Hkey Hsrs'.
    assert (emitted srs' = emitted search_results) as Hem.
    { unfold emitted. by rewrite Hsrs', (keys_exchange _ _ _ _ _ Hi Hj Hkey). }
    split; [by rewrite !build_references_emitted, Hem|]. split; [done|].
    rewrite length_filter_NoDup by apply NoDup_first_occurrences.
    destruct (decide (url_of ri = [])) as [Hurl|Hurl].
    + rewrite decide_False; [done|]. rewrite elem_of_emitted. cbn. tauto.
    + rewrite decide_True; [done|]. rewrite elem_of_emitted. split; [|done].
      apply list_elem_of_fmap. exists ri. split; [done|]. by eapply list_elem_of_lookup_2.
Qed.

Lemma enumerate_zip_seq {A} start (l : list A) :
  enumerate start l = zip (seq start (length l)) l.
Proof. revert start. induction l as [|x l IH]; intros start; cbn; [done|]. by rewrite IH. Qed.

Lemma uint_chars_inj u u' : uint_chars u = uint_chars u' -> u = u'.
Proof.
  revert u'. induction u as [|u IH|u IH|u IH|u IH|u IH|u IH|u IH|u IH|u IH|u IH];
    intros [|u'|u'|u'|u'|u'|u'|u'|u'|u'|u']; cbn; try done;
    intros [= Heq]; f_equal; by apply IH.
Qed.

Lemma str_of_nat_inj n m : str_of_nat n = str_of_nat m -> n = m.
Proof.
  unfold str_of_nat. intros Heq%uint_chars_inj.
  by rewrite <- (Unsigned.of_to n), <- (Unsigned.of_to m), Heq.
Qed.

(** C10. The text starts with the heading, and after it come the entries
    numbered 1, 2, ..., k in this order, k the number of entries; different
    numbers are written differently. When no record has a url, and so when
    there is no record at all, the text is the heading alone. *)
Theorem build_references_numbering search_results :
  let entries := emitted search_results in
  build_references search_results
    = REFERENCES_HEADING
      ++ mjoin ((fun '(n, k) => reference_entry n k) <$> zip (seq 1 (length entries)) entries)
  ∧ (forall n m, str_of_nat n = str_of_nat m -> n = m)
  ∧ ((forall res, res ∈ all_results search_results -> url_of res = []) ->
     build_references search_results = REFERENCES_HEADING)
  ∧ build_references [] = REFERENCES_HEADING.
Proof.
  cbn zeta. split; [by rewrite build_references_emitted, <- enumerate_zip_seq|].
  split; [apply str_of_nat_inj|]. split; [|done].
  intros Hurl. rewrite build_references_emitted.
  assert (emitted search_results = []) as ->; [|by rewrite app_nil_r].
  unfold emitted. induction (all_results search_results) as [|res l IH]; [done|].
  cbn [fmap list_fmap]. rewrite filter_cons_False.
  - apply IH. intros res' Hres'. apply Hurl. by apply list_elem_of_further.
  - cbn. rewrite Hurl by apply list_elem_of_here. tauto.
Qed.

(** ** The stages *)

Lemma foldl_snoc_fmap {A B} (f : A -> B) (l : list A) (acc : list B) :
  foldl (fun acc x => acc ++ [f x]) acc l = acc ++ (f <$> l).
Proof.
  revert acc. induction l as [|x l IH]; intros acc; cbn; [by rewrite app_nil_r|].
  by rewrite IH, <- app_assoc.
Qed.

Section PipelineFacts.
Context `{Env}.

Lemma bind_inr {A B} (m : M A) (k : A -> M B) st x st' :
  m st = (inr x, st') -> (m ≫= k) st = k x st'.
Proof. intros Hm. unfold mbind, M_bind, bind. by rewrite Hm. Qed.

Lemma bind_inl {A B} (m : M A) (k : A -> M B) st e st' :
  m st = (inl e, st') -> (m ≫= k) st = (inl e, st').
Proof. intros Hm. unfold mbind, M_bind, bind. by rewrite Hm. Qed.

Lemma bind_emit {B} ev (k : unit -> M B) st :
  (emit ev ≫= k) st = k tt {| world := world st; trace := trace st ++ [ev] |}.
Proof. reflexivity. Qed.

Lemma search_web_eq query reason st :
  search_web query reason st =
    match get_dict (search_params query) (world st) with
    | (inl e, w) => (inl e, after_search st query w)
    | (inr data, w) =>
      (inr (json_dumps (search_output query reason (normalize <$> default [] (organic_results data)))),
       after_search st query w)
    end.
Proof.
  unfold search_web. rewrite bool_decide_eq_false_2 by done.
  unfold mbind, M_bind, bind, call_search, after_search.
  destruct (get_dict _ _) as [[e|data] w]; [done|].
  by rewrite foldl_snoc_fmap.
Qed.

Lemma run_research_pipeline_eq query st :
  run_research_pipeline query st =
    match pipeline_body query st with
    | (inl e, st') => (inr (ERROR_PREFIX ++ exception_str e, [], []), st')
    | (inr t, st') => (inr t, st')
    end.
Proof.
  unfold run_research_pipeline, try_except.
  by destruct (pipeline_body query st) as [[e|t] st'].
Qed.

Lemma pipeline_body_rejected query st :
  query_rejected query = true ->
  pipeline_body query st = (inr (VALIDATION_MESSAGE, [], []), st).
Proof. intros Hq. unfold pipeline_body. by rewrite Hq. Qed.

Lemma pipeline_body_plan_raises query st e st1 :
  query_rejected query = false ->
  plan_searches query (started st) = (inl e, st1) ->
  pipeline_body query st = (inl e, st1).
Proof.
  intros Hq Hplan. unfold pipeline_body. rewrite Hq.
  unfold progress. rewrite bind_emit. by apply bind_inl.
Qed.

Lemma pipeline_body_search_raises query st plan st1 e st2 :
  query_rejected query = false ->
  plan_searches query (started st) = (inr plan, st1) ->
  perform_searches plan st1 = (inl e, st2) ->
  pipeline_body query st = (inl e, st2).
Proof.
  intros Hq Hplan Hsearch. unfold pipeline_body. rewrite Hq.
  unfold progress. rewrite bind_emit. rewrite (bind_inr _ _ _ _ _ Hplan).
  by apply bind_inl.
Qed.

Lemma pipeline_body_report_raises query st plan st1 outs st2 e st3 :
  query_rejected query = false ->
  plan_searches query (started st) = (inr plan, st1) ->
  perform_searches plan st1 = (inr outs, st2) ->
  write_report query outs st2 = (inl e, st3) ->
  pipeline_body query st = (inl e, st3).
Proof.
  intros Hq Hplan Hsearch Hreport. unfold pipeline_body. rewrite Hq.
  unfold progress. rewrite bind_emit. rewrite (bind_inr _ _ _ _ _ Hplan).
  rewrite (bind_inr _ _ _ _ _ Hsearch). by apply bind_inl.
Qed.

(** The trace only grows. *)

Lemma starts_with_ret {A} (x : A) : starts_with (mret x) [].
Proof. intros st. exists []. cbn. by rewrite app_nil_r. Qed.

Lemma starts_with_raise {A} e : starts_with (raise (A:=A) e) [].
Proof. intros st. exists []. cbn. by rewrite app_nil_r. Qed.

Lemma starts_with_lift {A} (r : exception + A) : starts_with (lift r) [].
Proof. intros st. exists []. cbn. by rewrite app_nil_r. Qed.

Lemma starts_with_emit ev : starts_with (emit ev) [ev].
Proof. intros st. exists []. cbn. done. Qed.

Lemma starts_with_call_model req : starts_with (call_model req) [ModelBegin req; ModelEnd].
Proof.
  intros st. exists []. unfold call_model. by destruct (generate_content _ _).
Qed.

Lemma starts_with_call_search params :
  starts_with (call_search params) [SearchBegin params; SearchEnd].
Proof.
  intros st. exists []. unfold call_search. by destruct (get_dict _ _).
Qed.

Lemma starts_with_weaken {A} (m : M A) evs : starts_with m evs -> starts_with m [].
Proof. intros Hm st. destruct (Hm st) as [tail ->]. by exists (evs ++ tail). Qed.

Lemma starts_with_bind {A B} (m : M A) (k : A -> M B) evs :
  starts_with m evs -> (forall x, starts_with (k x) []) -> starts_with (m ≫= k) evs.
Proof.
  intros Hm Hk st. unfold mbind, M_bind, bind.
  destruct (Hm st) as [tail Htail]. destruct (m st) as [[e|x] st1]; cbn in *.
  - by exists tail.
  - destruct (Hk x st1) as [tail' ->]. exists (tail ++ tail').
    rewrite Htail. by rewrite <- !app_assoc.
Qed.

Lemma starts_with_emit_bind {B} ev (m : M B) evs :
  starts_with m evs -> starts_with (emit ev ≫= fun _ => m) (ev :: evs).
Proof.
  intros Hm st. rewrite bind_emit.
  destruct (Hm {| world := world st; trace := trace st ++ [ev] |}) as [tail ->].
  exists tail. cbn. by rewrite <- app_assoc.
Qed.

Lemma starts_with_try_except {A} (body : M A) catches handler evs :
  starts_with body evs -> (forall e, starts_with (handler e) []) ->
  starts_with (try_except body catches handler) evs.
Proof.
  intros Hb Hh st. unfold try_except.
  destruct (Hb st) as [tail Htail]. destruct (body st) as [[e|x] st1]; cbn in *.
  - destruct (catches e); [|by exists tail].
    destruct (Hh e st1) as [tail' ->]. exists (tail ++ tail').
    rewrite Htail. by rewrite <- !app_assoc.
  - by exists tail.
Qed.

Lemma starts_with_search_web query reason : starts_with (search_web query reason) [].
Proof.
  unfold search_web. case_bool_decide; [apply starts_with_raise|].
  eapply starts_with_weaken, starts_with_bind; [apply starts_with_call_search|].
  intros data. apply starts_with_ret.
Qed.

Lemma starts_with_plan_searches query :
  starts_with (plan_searches query)
    [Progress (1 # 10) (MARK_BRAIN ++ lit " Planning research strategy...");
     ModelBegin (model_request (planner_input_text query)); ModelEnd].
Proof.
  unfold plan_searches, progress. apply starts_with_emit_bind.
  apply starts_with_bind; [apply starts_with_call_model|]. intros text.
  apply starts_with_bind.
  { apply starts_with_try_except; [apply starts_with_lift|].
    intros e. apply starts_with_raise. }
  intros data. apply starts_with_bind; [apply starts_with_lift|]. intros plan.
  eapply starts_with_weaken, starts_with_emit_bind, starts_with_ret.
Qed.

Lemma starts_with_loads_outcome text : starts_with (loads_outcome text) [].
Proof.
  unfold loads_outcome. destruct (json_loads_outcome text);
    [apply starts_with_raise|apply starts_with_ret].
Qed.

Lemma starts_with_loop total items results :
  starts_with (perform_searches_loop total items results) [].
Proof.
  revert results. induction items as [|[i item] items IH]; intros results; cbn.
  - apply starts_with_ret.
  - unfold progress. eapply starts_with_weaken, starts_with_emit_bind.
    apply starts_with_bind; [apply starts_with_search_web|]. intros text.
    apply starts_with_bind; [apply starts_with_loads_outcome|]. intros outcome.
    eapply starts_with_weaken, starts_with_emit_bind, IH.
Qed.

Lemma starts_with_perform_searches plan : starts_with (perform_searches plan) [].
Proof.
  unfold perform_searches. apply starts_with_bind; [apply starts_with_loop|].
  intros outs. unfold progress.
  eapply starts_with_weaken, starts_with_emit_bind, starts_with_ret.
Qed.

Lemma starts_with_write_report query outs : starts_with (write_report query outs) [].
Proof.
  unfold write_report, progress. eapply starts_with_weaken, starts_with_emit_bind.
  eapply starts_with_weaken, starts_with_bind; [apply starts_with_call_model|].
  intros text. apply starts_with_bind; [apply starts_with_lift|]. intros data.
  apply starts_with_bind; [apply starts_with_lift|]. intros report.
  eapply starts_with_weaken, starts_with_emit_bind, starts_with_ret.
Qed.

Lemma starts_with_pipeline_body query :
  query_rejected query = false ->
  starts_with (pipeline_body query)
    [Progress 0 (MARK_ROCKET ++ lit " Starting research pipeline...");
     Progress (1 # 10) (MARK_BRAIN ++ lit " Planning research strategy...");
     ModelBegin (model_request (planner_input_text query)); ModelEnd].
Proof.
  intros Hq. unfold pipeline_body, progress. rewrite Hq.
  apply starts_with_emit_bind.
  apply starts_with_bind; [apply starts_with_plan_searches|]. intros plan.
  apply starts_with_bind; [apply starts_with_perform_searches|]. intros outs.
  apply starts_with_bind; [apply starts_with_write_report|]. intros report.
  apply starts_with_ret.
Qed.
End PipelineFacts.

Lemma Forall2_enumerate {A B} (P : A -> B -> Prop) n (l : list A) (k : list B) :
  Forall2 (fun '(_, x) y => P x y) (enumerate n l) k <-> Forall2 P l k.
Proof.
  revert n k. induction l as [|x l IH]; intros n k; cbn.
  - split; intros Hk; inversion Hk; constructor.
  - split; intros Hk; inversion Hk; subst; constructor; try done; by eapply IH.
Qed.

Lemma bind_enumerate {A B} (f : A -> list B) n (l : list A) :
  (enumerate n l ≫= fun '(_, x) => f x) = l ≫= f.
Proof. revert n. induction l as [|x l IH]; intros n; cbn; [done|]. by rewrite IH. Qed.

Section SearchStage.
Context `{Env}.
Hypothesis loads_dumps : forall o, json_loads_outcome (json_dumps o) = inr o.

Lemma loop_returns total items results st outs st' :
  perform_searches_loop total items results st = (inr outs, st') ->
  exists new,
    outs = results ++ new
    ∧ Forall2 (fun '(_, item) o => out_query o = query item ∧ out_reason o = reason item)
        items new
    ∧ search_events (trace st')
      = search_events (trace st) ++ (items ≫= fun '(_, item) => item_events item).
Proof using loads_dumps.
  revert results st. induction items as [|[i item] items IH]; intros results st; cbn.
  - intros [= <- <-]. exists []. rewrite !app_nil_r. by repeat split.
  - unfold progress. rewrite bind_emit.
    unfold mbind at 1, M_bind at 1, bind at 1. rewrite search_web_eq. cbn [world trace].
    destruct (get_dict _ _) as [[e|data] w]; [done|].
    unfold loads_outcome. rewrite loads_dumps.
    unfold mbind at 1, M_bind at 1, bind at 1. cbn [mret M_ret ret].
    rewrite bind_emit. intros Hloop.
    apply IH in Hloop as (new & -> & Hnew & Htrace).
    eexists (_ :: new). rewrite <- app_assoc. split; [done|]. split.
    + by constructor.
    + rewrite Htrace. cbn [trace world after_search]. unfold search_events.
      rewrite !filter_app. cbn. rewrite !app_nil_r. by rewrite <- !app_assoc.
Qed.

Lemma loop_total total items results st :
  (forall params w, exists data w', get_dict params w = (inr data, w')) ->
  exists outs st', perform_searches_loop total items results st = (inr outs, st').
Proof using loads_dumps.
  intros Hprovider. revert results st.
  induction items as [|[i item] items IH]; intros results st; cbn.
  - by eexists _, _.
  - unfold progress. rewrite bind_emit.
    unfold mbind at 1, M_bind at 1, bind at 1. rewrite search_web_eq. cbn [world trace].
    destruct (Hprovider (search_params (query item)) (world st)) as (data & w & ->).
    unfold loads_outcome. rewrite loads_dumps.
    unfold mbind at 1, M_bind at 1, bind at 1. cbn [mret M_ret ret].
    rewrite bind_emit. apply IH.
Qed.
End SearchStage.

Section PipelineTheorems.
Context `{Env}.

Lemma plan_searches_returns query st plan st' :
  plan_searches query st = (inr plan, st') ->
  exists text w data,
    generate_content (model_request (planner_input_text query)) (world st) = (inr text, w)
    ∧ extract_json json_loads text = inr data
    ∧ WebSearchPlan_init data = inr plan.
Proof.
  unfold plan_searches, progress. rewrite bind_emit.
  unfold mbind, M_bind, bind, call_model, try_except, lift. cbn [world trace].
  destruct (generate_content _ _) as [[e|text] w]; [done|].
  destruct (extract_json json_loads text) as [e|data] eqn:Hdata;
    [by destruct (is_JSONDecodeError e)|].
  destruct (WebSearchPlan_init data) as [e|plan'] eqn:Hplan; [done|].
  cbn. intros [= <- _]. eauto 10.
Qed.

Lemma pipeline_body_planned query st plan st1 :
  query_rejected query = false ->
  plan_searches query (started st) = (inr plan, st1) ->
  (pipeline_body query st).2
  = ((search_results ← perform_searches plan; write_report query search_results) st1).2.
Proof.
  intros Hq Hplan. unfold pipeline_body, progress. rewrite Hq, bind_emit.
  fold (started st). rewrite (bind_inr _ _ _ _ _ Hplan).
  unfold mbind, M_bind, bind.
  destruct (perform_searches plan st1) as [[e|outs] st2]; [done|].
  by destruct (write_report query outs st2) as [[e|report] st3].
Qed.

(** C3, as the code has it. A mapping is accepted as a plan exactly when
    its entry [searches] is a list of mappings that each carry a string
    [reason] and a string [query]; the list may have any length and the
    strings may be empty. A mapping with an item that lacks one of the two
    fields is refused with [ValidationError]. The plan the planner hands on
    is the one that was accepted for the mapping read from the answer of the
    model to the planning prompt, item by item the strings of that mapping;
    and the rest of the run is the search stage on that plan followed by
    the report stage on its outcomes. *)
Theorem search_plan_validation kwargs :
  (forall plan,
     WebSearchPlan_init (JObj kwargs) = inr plan
     <-> exists items, dict_get kwargs (lit "searches") = Some (JArr items)
                       ∧ Forall2 plan_item_of items (searches plan))
  ∧ (forall items m,
       dict_get kwargs (lit "searches") = Some (JArr items) ->
       JObj m ∈ items ->
       dict_get m (lit "reason") = None ∨ dict_get m (lit "query") = None ->
       exists errors,
         WebSearchPlan_init (JObj kwargs) = inl (ValidationError (lit "WebSearchPlan") errors))
  ∧ (forall query st plan st1,
       plan_searches query (started st) = (inr plan, st1) ->
       (exists text w members items,
          generate_content (model_request (planner_input_text query)) (world st) = (inr text, w)
          ∧ extract_json json_loads text = inr (JObj members)
          ∧ WebSearchPlan_init (JObj members) = inr plan
          ∧ dict_get members (lit "searches") = Some (JArr items)
          ∧ Forall2 plan_item_of items (searches plan))
       ∧ (query_rejected query = false ->
          (run_research_pipeline query st).2
          = ((search_results ← perform_searches plan;
              write_report query search_results) st1).2)).
Proof.
  split; [|split].
  - intros plan. rewrite WebSearchPlan_init_inr. split.
    + intros (kw & items & [= <-] & ? & ?). eauto.
    + intros (items & ? & ?). eauto.
  - apply WebSearchPlan_init_missing.
  - intros query st plan st1 Hplan. split.
    + destruct (plan_searches_returns _ _ _ _ Hplan) as (text & w & data & Hmodel & Hdata & Hinit).
      pose proof Hinit as Hshape.
      apply WebSearchPlan_init_inr in Hshape as (members & items & -> & Hitems & Hall).
      exists text, w, members, items. by repeat split.
    + intros Hq. rewrite run_research_pipeline_eq.
      rewrite <- (pipeline_body_planned _ _ _ _ Hq Hplan).
      by destruct (pipeline_body query st) as [[e|t] st'].
Qed.

(** C4, as the code has it. The query is refused exactly when it is empty
    or, with the white space at its two ends removed, shorter than three
    characters. A refused query gets the fixed message and nothing else
    happens: the state, with its trace, is unchanged; such a query has
    fewer than three characters that are not white space. Any other query
    goes on to the planner: the run reports its start and the model is
    called with the planning prompt. *)
Theorem query_validation query st :
  (query_rejected query = true <-> query = [] ∨ length (strip query) < 3)
  ∧ (query_rejected query = true ->
     run_research_pipeline query st = (inr (VALIDATION_MESSAGE, [], []), st)
     ∧ length (non_whitespace query) < 3)
  ∧ (query_rejected query = false ->
     exists tail,
       trace (run_research_pipeline query st).2 =
         trace st
         ++ [Progress 0 (MARK_ROCKET ++ lit " Starting research pipeline...");
             Progress (1 # 10) (MARK_BRAIN ++ lit " Planning research strategy...");
             ModelBegin (model_request (planner_input_text query)); ModelEnd]
         ++ tail).
Proof.
  assert (query_rejected query = true <-> query = [] ∨ length (strip query) < 3) as Hiff.
  { unfold query_rejected. rewrite orb_true_iff, !bool_decide_eq_true. done. }
  split; [done|]. split.
  - intros Hq. rewrite run_research_pipeline_eq, pipeline_body_rejected by done.
    split; [done|]. apply Hiff in Hq as [->|Hq]; [cbn; lia|].
    pose proof (non_whitespace_le_strip query). lia.
  - intros Hq. apply starts_with_try_except.
    + by apply starts_with_pipeline_body.
    + intros e. apply starts_with_ret.
Qed.

(** C6. An exception raised inside a stage is caught at the boundary of
    [run_research_pipeline]: the result is the message of the exception
    behind the error mark, with an empty report and an empty follow-up
    list, in the state the stage left. The function itself never raises. *)
Theorem pipeline_errors_caught query st e st' :
  query_rejected query = false ->
  stage_raises query st e st' ->
  run_research_pipeline query st = (inr (ERROR_PREFIX ++ exception_str e, [], []), st')
  ∧ (forall query0 st0, exists t st1, run_research_pipeline query0 st0 = (inr t, st1)).
Proof.
  intros Hq Hraise. split.
  - rewrite run_research_pipeline_eq.
    destruct Hraise as [Hplan|plan st1 Hplan Hsearch|plan st1 outs st2 Hplan Hsearch Hreport].
    + by rewrite (pipeline_body_plan_raises _ _ _ _ Hq Hplan).
    + by rewrite (pipeline_body_search_raises _ _ _ _ _ _ Hq Hplan Hsearch).
    + by rewrite (pipeline_body_report_raises _ _ _ _ _ _ _ _ Hq Hplan Hsearch Hreport).
  - intros query0 st0. rewrite run_research_pipeline_eq.
    destruct (pipeline_body query0 st0) as [[e0|t] st1]; eauto.
Qed.

(** C7. [search_web] asks the provider for 5 results, and each record of
    the answer is normalised: the title, or ["No title"] when the record
    has none; the url, taken from the provider's [link], or the empty
    string; the snippet, or the empty string. *)
Theorem search_web_normalizes query reason st :
  num (search_params query) = 5%Z
  ∧ q (search_params query) = query
  ∧ (forall data w,
       get_dict (search_params query) (world st) = (inr data, w) ->
       search_web query reason st =
         (inr (json_dumps (search_output query reason
                 (normalize <$> default [] (organic_results data)))),
          {| world := w;
             trace := trace st ++ [SearchBegin (search_params query); SearchEnd] |}))
  ∧ (forall r : gmap (list N) (list N),
       normalize r !! lit "title"
         = Some (match r !! lit "title" with Some title => title | None => lit "No title" end)
       ∧ normalize r !! lit "url"
         = Some (match r !! lit "link" with Some url => url | None => [] end)
       ∧ normalize r !! lit "snippet"
         = Some (match r !! lit "snippet" with Some snippet => snippet | None => [] end)).
Proof.
  split; [done|]. split; [done|]. split.
  - intros data w Hdata. by rewrite search_web_eq, Hdata.
  - intros r. unfold normalize.
    rewrite lookup_insert_eq.
    rewrite lookup_insert_ne, lookup_insert_eq by done.
    rewrite !lookup_insert_ne, lookup_singleton_eq by done.
    by destruct (r !! lit "title"), (r !! lit "link"), (r !! lit "snippet").
Qed.

(** C8. When the search stage returns, there is one outcome per plan item,
    in the order of the plan, carrying the query and the reason of its
    item, and the provider was called once per item, in that order, each
    call over before the next one begins. The stage returns whenever the
    provider answers every call. *)
Theorem perform_searches_in_order plan st :
  (forall o, json_loads_outcome (json_dumps o) = inr o) ->
  (forall outcomes st',
     perform_searches plan st = (inr outcomes, st') ->
     length outcomes = length (searches plan)
     ∧ Forall2 (fun item o => out_query o = query item ∧ out_reason o = reason item)
         (searches plan) outcomes
     ∧ search_events (trace st')
       = search_events (trace st) ++ (searches plan ≫= item_events))
  ∧ ((forall params w, exists data w', get_dict params w = (inr data, w')) ->
     exists outcomes st', perform_searches plan st = (inr outcomes, st')).
Proof.
  intros Hlaw. split.
  - intros outcomes st'. unfold perform_searches, progress.
    unfold mbind at 1, M_bind at 1, bind at 1.
    destruct (perform_searches_loop _ _ _ st) as [[e|outs] st1] eqn:Hloop; [done|].
    rewrite bind_emit. cbn. intros [= <- <-].
    apply (loop_returns Hlaw) in Hloop as (new & -> & Hnew & Htrace).
    cbn [app]. apply Forall2_enumerate in Hnew.
    split; [symmetry; by eapply Forall2_length|]. split; [done|].
    cbn [trace]. unfold search_events in *. rewrite filter_app, Htrace.
    rewrite bind_enumerate. cbn. by rewrite app_nil_r.
  - intros Hprovider. unfold perform_searches, progress.
    destruct (loop_total Hlaw (length (searches plan)) (enumerate 1 (searches plan)) [] st Hprovider)
      as (outs & st1 & Hloop).
    unfold mbind at 1, M_bind at 1, bind at 1. rewrite Hloop, bind_emit. cbn. eauto.
Qed.
End PipelineTheorems.

(** ** The sample encoder and decoder agree *)

Module SampleFacts.
Import Sample.

Lemma parse_chars_escape d c s :
  unescape_char d = Some c ->
  parse_chars (BACKSLASH :: d :: s)
  = match parse_chars s with Some (t, r) => Some (c :: t, r) | None => None end.
Proof. intros Hd. cbn [parse_chars]. by rewrite Hd. Qed.

Lemma parse_chars_plain c s :
  c ≠ DQUOTE -> c ≠ BACKSLASH ->
  parse_chars (c :: s)
  = match parse_chars s with Some (t, r) => Some (c :: t, r) | None => None end.
Proof.
  intros Hq Hb. cbn [parse_chars].
  by rewrite (proj2 (N.eqb_neq c DQUOTE)), (proj2 (N.eqb_neq c BACKSLASH)).
Qed.

Lemma parse_chars_json_safe s rest :
  parse_chars (json_safe s ++ DQUOTE :: rest) = Some (s, rest).
Proof.
  rewrite json_safe_bind. induction s as [|c s IH]; [done|].
  cbn [mbind list_bind]. fold (s ≫= escape_char). rewrite <- app_assoc.
  unfold escape_char at 1.
  destruct (N.eqb_spec c BACKSLASH) as [->|Hb];
    [cbn [app]; by rewrite (parse_chars_escape _ BACKSLASH), IH|].
  destruct (N.eqb_spec c DQUOTE) as [->|Hq];
    [cbn [app]; by rewrite (parse_chars_escape _ DQUOTE), IH|].
  destruct (N.eqb_spec c LF) as [->|?];
    [cbn [app]; by rewrite (parse_chars_escape _ LF), IH|].
  destruct (N.eqb_spec c CR) as [->|?];
    [cbn [app]; by rewrite (parse_chars_escape _ CR), IH|].
  cbn [app]. by rewrite parse_chars_plain, IH.
Qed.

Lemma parse_value_space fuel s : parse_value fuel (32%N :: s) = parse_value fuel s.
Proof. by destruct fuel. Qed.

Lemma parse_members_space pv n s : parse_members pv n (32%N :: s) = parse_members pv n s.
Proof. by destruct n. Qed.

Lemma parse_value_str fuel s rest :
  parse_value fuel (encode_str s ++ rest) = Some (JStr s, rest).
Proof.
  unfold encode_str, quoted. rewrite <- app_comm_cons, <- app_assoc.
  destruct fuel; cbn; by rewrite parse_chars_json_safe.
Qed.

Lemma encode_members_cons k text members :
  encode_members ((k, text) :: members) =
    encode_str k ++ lit ": " ++ text
    ++ match members with [] => [] | _ => lit ", " ++ encode_members members end.
Proof.
  unfold encode_members. cbn [fmap list_fmap join].
  destruct members as [|[k' text'] members]; cbn [fmap list_fmap].
  - by rewrite app_nil_r.
  - by rewrite <- !app_assoc.
Qed.

Lemma parse_members_encode pv n members vs rest :
  (forall s, pv (32%N :: s) = pv s) ->
  members ≠ [] -> length members <= n ->
  Forall2 (fun m v => reads pv m.2 v) members vs ->
  parse_members pv n (encode_members members ++ RBRACE :: rest)
  = Some (zip (members.*1) vs, rest).
Proof.
  intros Hpv. revert n vs.
  induction members as [|[k text] members IH]; intros n vs Hne Hn Hvs; [done|].
  inversion Hvs as [|? v ? vs' Hv Hvs']; subst. cbn in Hv.
  destruct n as [|n]; [cbn in Hn; lia|].
  rewrite encode_members_cons. unfold encode_str at 1, quoted.
  change (lit ": ") with [58%N; 32%N]. change (lit ", ") with [44%N; 32%N].
  destruct members as [|m' members].
  - inversion Hvs'; subst. rewrite app_nil_r.
    rewrite <- !app_comm_cons, <- !app_assoc.
    cbn [parse_members skip_ws is_ws]. cbn -[parse_members parse_chars skip_ws].
    rewrite parse_chars_json_safe. cbn -[parse_members parse_chars].
    rewrite Hpv, Hv. by cbn.
  - remember (encode_members (m' :: members)) as tail eqn:Htail.
    rewrite <- !app_comm_cons, <- !app_assoc.
    cbn [parse_members skip_ws is_ws]. cbn -[parse_members parse_chars skip_ws].
    rewrite parse_chars_json_safe. cbn -[parse_members parse_chars].
    rewrite Hpv. rewrite <- !app_assoc, <- !app_comm_cons. rewrite Hv.
    cbn -[parse_members]. rewrite parse_members_space. subst tail.
    rewrite IH with (vs := vs'); [done|done| |done].
    cbn in *. lia.
Qed.

Lemma join_cons sep (t : pystr) ts :
  join sep (t :: ts) = t ++ match ts with [] => [] | _ => sep ++ join sep ts end.
Proof. destruct ts; cbn [join]; by rewrite ?app_nil_r. Qed.

Lemma parse_items_space pv n s :
  (forall s, pv (32%N :: s) = pv s) ->
  parse_items pv n (32%N :: s) = parse_items pv n s.
Proof. intros Hpv. destruct n; [done|]. cbn [parse_items]. by rewrite Hpv. Qed.

Lemma parse_items_encode pv n texts vs rest :
  (forall s, pv (32%N :: s) = pv s) ->
  texts ≠ [] -> length texts <= n -> Forall2 (reads pv) texts vs ->
  parse_items pv n (join (lit ", ") texts ++ 93%N :: rest) = Some (vs, rest).
Proof.
  intros Hpv. revert n vs.
  induction texts as [|text texts IH]; intros n vs Hne Hn Hvs; [done|].
  inversion Hvs as [|? v ? vs' Hv Hvs']; subst.
  destruct n as [|n]; [cbn in Hn; lia|].
  rewrite join_cons. change (lit ", ") with [44%N; 32%N] in *.
  destruct texts as [|text' texts].
  - inversion Hvs'; subst. rewrite app_nil_r. cbn [parse_items].
    rewrite Hv. by cbn.
  - remember (join [44%N; 32%N] (text' :: texts)) as tail eqn:Htail.
    rewrite <- !app_assoc, <- !app_comm_cons. cbn [parse_items].
    rewrite Hv. cbn -[parse_items]. rewrite parse_items_space by done. subst tail.
    rewrite IH with (vs := vs'); [done|done| |done].
    cbn in *. lia.
Qed.

Lemma length_join sep (texts : list pystr) :
  Forall (fun t => t ≠ []) texts -> length texts <= length (join sep texts).
Proof.
  induction 1 as [|t texts Ht _ IH]; [done|].
  rewrite join_cons. destruct t as [|c t]; [done|].
  destruct texts; cbn [length app] in *; rewrite ?length_app; lia.
Qed.

Lemma length_encode_members members : length members <= length (encode_members members).
Proof.
  unfold encode_members. etrans; [|apply length_join].
  - by rewrite length_fmap.
  - apply Forall_fmap, Forall_true. by intros [k text].
Qed.

Lemma parse_value_object fuel c text :
  c = DQUOTE ->
  parse_value (S fuel) (LBRACE :: c :: text)
  = match parse_members (parse_value fuel) (length (c :: text)) (c :: text) with
    | Some (ms, r) => Some (JObj ms, r)
    | None => None
    end.
Proof. by intros ->. Qed.

Lemma parse_value_array fuel c text :
  c = LBRACE ->
  parse_value (S fuel) (91%N :: c :: text)
  = match parse_items (parse_value fuel) (length (c :: text)) (c :: text) with
    | Some (vs, r) => Some (JArr vs, r)
    | None => None
    end.
Proof. by intros ->. Qed.

Lemma zip_members (l : list (list N * list N)) :
  zip (((fun '(k, v) => (k, encode_str v)) <$> l).*1) ((fun kv => JStr kv.2) <$> l)
  = (fun '(k, v) => (k, JStr v)) <$> l.
Proof. induction l as [|[k v] l IH]; cbn; [done|]. by rewrite IH. Qed.

Lemma parse_value_record (fuel : nat) r : reads (parse_value (S fuel)) (encode_record r) (record_json r).
Proof.
  intros rest. unfold encode_record, record_json, encode_object.
  destruct (map_to_list r) as [|[k v] l] eqn:Hl; [done|].
  rewrite <- Hl. set (members := (fun '(k, v) => (k, encode_str v)) <$> map_to_list r).
  rewrite <- !app_assoc. cbn [app].
  assert (exists text, encode_members members ++ RBRACE :: rest = DQUOTE :: text) as [text Htext].
  { unfold members. rewrite Hl. cbn [fmap list_fmap]. rewrite encode_members_cons.
    unfold encode_str at 1, quoted. rewrite <- !app_comm_cons. eauto. }
  rewrite Htext, parse_value_object by done. rewrite <- Htext.
  rewrite parse_members_encode with (vs := (fun kv => JStr kv.2) <$> map_to_list r).
  - unfold members. by rewrite zip_members.
  - apply parse_value_space.
  - unfold members. by rewrite Hl.
  - rewrite length_app. pose proof (length_encode_members members). lia.
  - unfold members. apply Forall2_fmap, Forall_Forall2_diag, Forall_true.
    intros [k' v']. cbn. intros rest'. apply parse_value_str.
Qed.

Lemma parse_value_records (fuel : nat) (rs : list (gmap (list N) (list N))) :
  reads (parse_value (S (S fuel))) (encode_array (encode_record <$> rs))
    (JArr (record_json <$> rs)).
Proof.
  intros rest. unfold encode_array.
  destruct rs as [|r rs]; [done|].
  set (texts := encode_record <$> r :: rs).
  rewrite <- !app_assoc. cbn [app].
  assert (exists text, join (lit ", ") texts ++ 93%N :: rest = LBRACE :: text) as [text Htext].
  { unfold texts. cbn [fmap list_fmap]. rewrite join_cons.
    unfold encode_record at 1, encode_object. rewrite <- !app_assoc. cbn [app]. eauto. }
  rewrite Htext, parse_value_array by done. rewrite <- Htext.
  rewrite parse_items_encode with (vs := record_json <$> r :: rs); [done| | | |].
  - apply parse_value_space.
  - done.
  - rewrite length_app. etrans; [apply (length_join (lit ", "))|lia].
    unfold texts. apply Forall_fmap, Forall_true. by intros r'.
  - unfold texts. apply Forall2_fmap, Forall_Forall2_diag, Forall_true.
    intros r'. apply parse_value_record.
Qed.

Lemma parse_value_outcome (fuel : nat) o :
  reads (parse_value (S (S (S fuel)))) (encode_outcome o) (outcome_json o).
Proof.
  intros rest. unfold encode_outcome, outcome_json, encode_object.
  set (members := [(lit "query", encode_str (out_query o)); _; _; _]).
  rewrite <- !app_assoc. cbn [app].
  assert (exists text, encode_members members ++ RBRACE :: rest = DQUOTE :: text) as [text Htext].
  { unfold members. rewrite encode_members_cons.
    unfold encode_str at 1, quoted. rewrite <- !app_comm_cons. eauto. }
  rewrite Htext, parse_value_object by done. rewrite <- Htext.
  rewrite parse_members_encode
    with (vs := [JStr (out_query o); JStr (out_reason o);
                 JArr (record_json <$> results o); JStr (summary o)]); [done| | | |].
  - apply parse_value_space.
  - done.
  - rewrite length_app. pose proof (length_encode_members members). lia.
  - unfold members. repeat constructor; cbn [snd].
    + intros r. apply parse_value_str.
    + intros r. apply parse_value_str.
    + apply parse_value_records.
    + intros r. apply parse_value_str.
Qed.

Lemma decode_encode_outcome o : decode (encode_outcome o) = inr (outcome_json o).
Proof.
  unfold decode.
  assert (exists fuel, length (encode_outcome o) = S (S (S fuel))) as [fuel ->].
  { unfold encode_outcome, encode_object.
    set (members := [(lit "query", encode_str (out_query o)); _; _; _]).
    pose proof (length_encode_members members) as Hlen. cbn [length members] in Hlen.
    rewrite !length_app. cbn [length].
    exists (length (encode_members members) - 1). lia. }
  rewrite <- (app_nil_r (encode_outcome o)). by rewrite parse_value_outcome.
Qed.

Lemma as_record_json r : as_record (record_json r) = Some r.
Proof.
  unfold as_record, record_json.
  assert (mapM (fun '(k, v) => pair k <$> as_str v)
            ((fun '(k, v) => (k, JStr v)) <$> map_to_list r) = Some (map_to_list r)) as ->.
  { induction (map_to_list r) as [|[k v] l IH]; [done|]. cbn. by rewrite IH. }
  cbn. by rewrite list_to_map_to_list.
Qed.

Lemma as_outcome_json o : as_outcome (outcome_json o) = Some o.
Proof.
  destruct o as [q r rs s]. unfold as_outcome, outcome_json.
  cbn [out_query out_reason results summary].
  set (members := [(lit "query", JStr q); _; _; _]).
  assert (dict_get members (lit "query") = Some (JStr q)) as -> by by vm_compute.
  assert (dict_get members (lit "reason") = Some (JStr r)) as -> by by vm_compute.
  assert (dict_get members (lit "results") = Some (JArr (record_json <$> rs))) as ->
    by by vm_compute.
  assert (dict_get members (lit "summary") = Some (JStr s)) as -> by by vm_compute.
  assert (mapM as_record (record_json <$> rs) = Some rs) as Hrs.
  { apply mapM_Some, Forall2_fmap_l, Forall_Forall2_diag, Forall_true.
    apply as_record_json. }
  cbn -[as_record mapM record_json]. rewrite Hrs. by cbn.
Qed.

(** The sample encoder and decoder agree, as [json.dumps] and [json.loads] do. *)
Lemma decode_outcome_encode o : decode_outcome (encode_outcome o) = inr o.
Proof. unfold decode_outcome. by rewrite decode_encode_outcome, as_outcome_json. Qed.

Lemma loads_search_output_encode o : loads_search_output (encode_outcome o) = inr o.
Proof. unfold loads_search_output. by rewrite decode_outcome_encode. Qed.
End SampleFacts.

(** ** The properties at the sample inputs *)

(** C1 at a model answer with prose before and after the plan. *)
Lemma extract_json_first_to_last_witness :
  extract_json Sample.loads demo_plan_text = inr demo_plan_json.
Proof.
  refine (proj2 (extract_json_first_to_last Sample.loads demo_plan_text
                   (lit "Here is the plan: ")
                   (quoted (lit "searches") ++ lit ": [{"
                    ++ quoted (lit "reason") ++ lit ": " ++ quoted (lit "background") ++ lit ", "
                    ++ quoted (lit "query") ++ lit ": " ++ quoted (lit "qubit basics") ++ lit "}, {"
                    ++ quoted (lit "reason") ++ lit ": " ++ quoted (lit "uses") ++ lit ", "
                    ++ quoted (lit "query") ++ lit ": " ++ quoted (lit "quantum applications")
                    ++ lit "}]")
                   (lit " Good luck.") _) _ _ demo_plan_json _).
  - vm_compute. reflexivity.
  - by_evaluation.
  - by_evaluation.
  - vm_compute. reflexivity.
Defined.

(** C2, as the code has it, at an answer without braces, at one whose span
    is not JSON, and at one whose span holds an integer of 5000 digits. *)
Lemma extract_json_failures_witness :
  extract_json Sample.loads (lit "no braces in this answer")
  = inl (ValueError (lit "No JSON object found in text."))
  ∧ (exists reason,
       extract_json Sample.loads (lit "result: {oops} end")
       = inl (ValueError (lit "Failed to parse JSON: " ++ reason ++ [LF]
                          ++ lit "Preview: result: {oops} end")))
  ∧ extract_json Sample.loads demo_long_integer_text
    = inl (ValueError (Sample.digits_message 5000)).
Proof.
  split; [|split].
  - apply (proj1 (extract_json_failures Sample.loads (lit "no braces in this answer"))).
    intros (a & b & c & Heq).
    assert (LBRACE ∉ lit "no braces in this answer") as Hno
      by by_evaluation.
    apply Hno. rewrite Heq. apply elem_of_app. right. apply list_elem_of_here.
  - exists (lit "Expecting value").
    apply (proj1 (proj2 (extract_json_failures Sample.loads (lit "result: {oops} end")))
             (lit "result: ") (lit "oops") (lit " end") (lit "Expecting value")).
    + vm_compute. reflexivity.
    + by_evaluation.
    + by_evaluation.
    + vm_compute. reflexivity.
  - apply (proj1 (proj2 (proj2 (extract_json_failures Sample.loads demo_long_integer_text)))
             (lit "answer: ") (quoted (lit "n") ++ lit ": " ++ replicate 5000 49%N) (lit " end")).
    + vm_compute. reflexivity.
    + by_evaluation.
    + by_evaluation.
    + vm_compute. reflexivity.
    + reflexivity.
Defined.

(** C2, the claim as it is written, fails: the answer has an opening brace
    and a closing brace after it, and [extract_json] raises the
    [ValueError] of the integer conversion, which is neither of the two
    errors of the claim. *)
Lemma long_integer_counterexample :
  (exists a b c, demo_long_integer_text = a ++ LBRACE :: b ++ RBRACE :: c)
  ∧ extract_json Sample.loads demo_long_integer_text
    = inl (ValueError (Sample.digits_message 5000))
  ∧ Sample.digits_message 5000 ≠ lit "No JSON object found in text."
  ∧ (forall reason,
       Sample.digits_message 5000
       ≠ lit "Failed to parse JSON: " ++ reason ++ [LF]
         ++ lit "Preview: " ++ take 500 demo_long_integer_text).
Proof.
  split; [|split; [|split]].
  - exists (lit "answer: "), (quoted (lit "n") ++ lit ": " ++ replicate 5000 49%N), (lit " end").
    vm_compute. reflexivity.
  - vm_compute. reflexivity.
  - intros Heq. apply (f_equal head) in Heq. vm_compute in Heq. discriminate.
  - intros reason Heq. apply (f_equal head) in Heq. vm_compute in Heq. discriminate.
Qed.

(** C3, as the code has it, at the sample plan, at a plan whose item has no
    [query], and at the plan the sample planner returns. *)
Lemma search_plan_validation_witness :
  WebSearchPlan_init demo_plan_json = inr demo_plan
  ∧ (exists errors,
       WebSearchPlan_init (JObj demo_missing_query)
       = inl (ValidationError (lit "WebSearchPlan") errors))
  ∧ (exists text w members items,
       Sample.scripted_model (model_request (planner_input_text (lit "quantum computing")))
         demo_refused
       = (inr text, w)
       ∧ extract_json Sample.loads text = inr (JObj members)
       ∧ WebSearchPlan_init (JObj members) = inr demo_plan
       ∧ dict_get members (lit "searches") = Some (JArr items)
       ∧ Forall2 plan_item_of items (searches demo_plan)).
Proof.
  pose (env := Sample.env Sample.scripted_provider).
  split; [|split].
  - apply (proj1 (@search_plan_validation env _)).
    eexists. split; [vm_compute; reflexivity|].
    repeat constructor; eexists; (split; [reflexivity|split; vm_compute; reflexivity]).
  - apply (proj1 (proj2 (@search_plan_validation env demo_missing_query))
             [JObj [(lit "reason", JStr (lit "background"))]]
             [(lit "reason", JStr (lit "background"))]).
    + vm_compute. reflexivity.
    + apply list_elem_of_here.
    + right. vm_compute. reflexivity.
  - apply (proj1 (proj2 (proj2 (@search_plan_validation env []))
                    (lit "quantum computing") (demo_start _ demo_refused) demo_plan
                    (plan_searches (lit "quantum computing")
                       (started (demo_start _ demo_refused))).2
                    ltac:(vm_compute; reflexivity))).
Defined.

(** C3, the claim as it is written, fails: a plan of one item, not
    [NUM_SEARCHES], whose reason and query are both empty is accepted, and
    the planner hands it on. *)
Lemma search_plan_counterexample :
  WebSearchPlan_init (JObj demo_empty_item) = inr demo_empty_item_plan
  ∧ length (searches demo_empty_item_plan) ≠ NUM_SEARCHES
  ∧ Exists (fun item => reason item = [] ∧ query item = []) (searches demo_empty_item_plan)
  ∧ (plan_searches (lit "quantum computing")
       (demo_start Sample.scripted_provider demo_empty_item_script)).1
    = inr demo_empty_item_plan.
Proof.
  split; [vm_compute; reflexivity|]. split; [vm_compute; lia|].
  split; [by constructor|]. vm_compute. reflexivity.
Qed.

(** C4, as the code has it, at ["ab"], refused, and at ["abc"], planned. *)
Lemma query_validation_witness :
  run_research_pipeline (lit "ab") (demo_start Sample.scripted_provider demo_refused)
  = (inr (VALIDATION_MESSAGE, [], []), demo_start Sample.scripted_provider demo_refused)
  ∧ (exists tail,
       trace (run_research_pipeline (lit "abc")
                (demo_start Sample.scripted_provider demo_refused)).2
       = [Progress 0 (MARK_ROCKET ++ lit " Starting research pipeline...");
          Progress (1 # 10) (MARK_BRAIN ++ lit " Planning research strategy...");
          ModelBegin (model_request (planner_input_text (lit "abc"))); ModelEnd]
         ++ tail).
Proof.
  split.
  - apply (proj1 (proj2 (query_validation (lit "ab") (demo_start _ demo_refused)))).
    vm_compute. reflexivity.
  - apply (proj2 (proj2 (query_validation (lit "abc") (demo_start _ demo_refused)))).
    vm_compute. reflexivity.
Defined.

(** C4, the claim as it is written, fails: ["a b"] has two characters that
    are not white space, and it is not refused: the planner is called. *)
Lemma interior_space_counterexample :
  length (non_whitespace (lit "a b")) = 2
  ∧ query_rejected (lit "a b") = false
  ∧ ModelBegin (model_request (planner_input_text (lit "a b")))
    ∈ trace (run_research_pipeline (lit "a b")
               (demo_start Sample.scripted_provider demo_refused)).2.
Proof.
  split; [vm_compute; reflexivity|]. split; [vm_compute; reflexivity|].
  vm_compute. do 2 apply list_elem_of_further. apply list_elem_of_here.
Qed.

(** C5 at the sample outcomes: the two records filed under the same pair
    change places. *)
Lemma build_references_dedup_witness :
  build_references demo_outcomes_exchanged = build_references demo_outcomes
  ∧ length (filter (fun k => k = key_of demo_record_a) (emitted demo_outcomes)) = 1.
Proof.
  destruct (build_references_dedup demo_outcomes) as (_ & _ & _ & _ & Hexchange).
  destruct (Hexchange demo_outcomes_exchanged 0 3 demo_record_a demo_record_a')
    as (Htext & _ & Hcount).
  - reflexivity.
  - reflexivity.
  - vm_compute. reflexivity.
  - vm_compute. reflexivity.
  - split; [exact Htext|]. rewrite Hcount. vm_compute. reflexivity.
Defined.

(** C10 at an outcome whose only record has no url. *)
Lemma build_references_numbering_witness :
  build_references
    [{| out_query := lit "qubit basics"; out_reason := lit "background";
        results := [demo_record_no_url]; summary := [] |}]
  = REFERENCES_HEADING.
Proof.
  apply (proj1 (proj2 (proj2 (build_references_numbering _)))).
  intros res Hres. apply list_elem_of_singleton in Hres. rewrite Hres.
  vm_compute. reflexivity.
Defined.

(** C6 at the run in which the provider refuses the second query. *)
Lemma pipeline_errors_caught_witness :
  (run_research_pipeline (lit "quantum computing")
     (demo_start Sample.scripted_provider demo_refused)).1
  = inr (ERROR_PREFIX ++ lit "Invalid API key", [], []).
Proof.
  pose (st := demo_start Sample.scripted_provider demo_refused).
  assert (plan_searches (lit "quantum computing") (started st)
          = (inr demo_plan, (plan_searches (lit "quantum computing") (started st)).2))
    as Hplan by (vm_compute; reflexivity).
  assert (perform_searches demo_plan (plan_searches (lit "quantum computing") (started st)).2
          = (inl (ClientError (lit "Invalid API key")),
             (run_research_pipeline (lit "quantum computing") st).2))
    as Hsearch by (vm_compute; reflexivity).
  exact (f_equal fst
           (proj1 (pipeline_errors_caught (lit "quantum computing") st
                     (ClientError (lit "Invalid API key"))
                     (run_research_pipeline (lit "quantum computing") st).2
                     eq_refl (search_raises _ _ _ _ _ _ Hplan Hsearch)))).
Defined.

(** C7 at the sample answer of the provider: the second record had only a
    link. *)
Lemma search_web_normalizes_witness :
  (search_web (lit "qubit basics") (lit "background")
     (demo_start Sample.scripted_provider demo_refused)).1
  = inr (Sample.encode_outcome
           (search_output (lit "qubit basics") (lit "background")
              [ {[ lit "title" := lit "Qubits"; lit "url" := lit "https://q.example/a";
                   lit "snippet" := lit "What a qubit is" ]};
                {[ lit "title" := lit "No title"; lit "url" := lit "https://q.example/b";
                   lit "snippet" := [] ]} ])).
Proof.
  rewrite (proj1 (proj2 (proj2 (search_web_normalizes (lit "qubit basics") (lit "background")
                                   (demo_start Sample.scripted_provider demo_refused))))
             demo_data
             {| Sample.model_answers := [inr demo_plan_text];
                Sample.provider_answers := [inl (ClientError (lit "Invalid API key"))] |}
             eq_refl).
  vm_compute. reflexivity.
Defined.

(** C8 at the sample plan, with a provider that always answers and the
    sample encoder and decoder. *)
Lemma perform_searches_in_order_witness :
  exists outcomes st',
    perform_searches demo_plan (demo_start (Sample.fixed_provider demo_data) demo_refused)
    = (inr outcomes, st')
    ∧ length outcomes = 2
    ∧ Forall2 (fun item o => out_query o = query item ∧ out_reason o = reason item)
        (searches demo_plan) outcomes
    ∧ search_events (trace st')
      = [SearchBegin (search_params (lit "qubit basics")); SearchEnd;
         SearchBegin (search_params (lit "quantum applications")); SearchEnd].
Proof.
  pose (st := demo_start (Sample.fixed_provider demo_data) demo_refused).
  destruct (perform_searches_in_order demo_plan st SampleFacts.loads_search_output_encode)
    as [Hreturns Htotal].
  destruct Htotal as (outcomes & st' & Hrun).
  { intros params w. exists demo_data, w. reflexivity. }
  exists outcomes, st'. split; [exact Hrun|].
  destruct (Hreturns outcomes st' Hrun) as (Hlen & Hall & Htrace).
  split; [exact Hlen|]. split; [exact Hall|]. exact Htrace.
Defined.

(** * Further properties *)

(** ** More on escaping *)

Lemma json_safe_app s t : json_safe (s ++ t) = json_safe s ++ json_safe t.
Proof. rewrite !json_safe_bind. apply bind_app. Qed.

Lemma length_json_safe s : length (json_safe s) = length s + length (filter special s).
Proof.
  rewrite json_safe_bind. induction s as [|c s IH]; [done|].
  cbn [mbind list_bind]. fold (s ≫= escape_char). rewrite length_app, IH.
  destruct (escape_char_cases c) as [(Hc & d & -> & _)|[Hc ->]].
  - rewrite filter_cons_True by done. cbn. lia.
  - rewrite filter_cons_False by done. cbn. lia.
Qed.

Lemma json_safe_plain s : Forall (fun c => ¬ special c) s -> json_safe s = s.
Proof.
  rewrite json_safe_bind. induction 1 as [|c s Hc _ IH]; [done|].
  cbn [mbind list_bind]. fold (s ≫= escape_char). rewrite IH.
  destruct (escape_char_cases c) as [(Hc' & _)|[_ ->]]; done.
Qed.

Lemma filter_special_nil s : filter special s = [] -> Forall (fun c => ¬ special c) s.
Proof.
  induction s as [|c s IH]; [constructor|].
  destruct (decide (special c)) as [Hc|Hc].
  - by rewrite filter_cons_True.
  - rewrite filter_cons_False by done. intros Hs. constructor; auto.
Qed.

Lemma json_safe_fixed s : json_safe s = s <-> Forall (fun c => ¬ special c) s.
Proof.
  split; [|apply json_safe_plain].
  intros Heq. apply filter_special_nil, nil_length_inv.
  pose proof (length_json_safe s) as Hlen. rewrite Heq in Hlen. lia.
Qed.

Lemma json_safe_keeps_special s :
  Forall (fun c => ¬ special c) (json_safe s) -> Forall (fun c => ¬ special c) s.
Proof.
  rewrite json_safe_bind. induction s as [|c s IH]; [constructor|].
  cbn [mbind list_bind]. fold (s ≫= escape_char). rewrite Forall_app.
  intros [Hc Hs]. constructor; [|by apply IH].
  destruct (escape_char_cases c) as [(_ & d & Hd & _)|[Hc' _]]; [|done].
  rewrite Hd in Hc. apply Forall_cons_1 in Hc as [Hb _]. destruct Hb. by left.
Qed.

(** X1. Escaping goes through concatenation; it adds one character for each
    backslash, double quote, newline and carriage return; it leaves a text
    unchanged exactly when the text has none of the four; escaping twice
    differs from escaping once as soon as there is one; and two texts with
    the same escaped form are equal. *)
Theorem json_safe_algebra s t :
  json_safe (s ++ t) = json_safe s ++ json_safe t
  ∧ length (json_safe s) = length s + length (filter special s)
  ∧ (json_safe s = s <-> Forall (fun c => ¬ special c) s)
  ∧ (json_safe (json_safe s) = json_safe s <-> Forall (fun c => ¬ special c) s)
  ∧ (json_safe s = json_safe t -> s = t).
Proof.
  split; [apply json_safe_app|]. split; [apply length_json_safe|].
  split; [apply json_safe_fixed|]. split.
  - rewrite json_safe_fixed. split; [apply json_safe_keeps_special|].
    intros Hs. by rewrite json_safe_plain.
  - intros Heq. by rewrite <- (unescape_json_safe s), <- (unescape_json_safe t), Heq.
Qed.

(** ** More on the query check *)

Lemma lstrip_blank ws s : blank ws -> lstrip (ws ++ s) = lstrip s.
Proof. induction 1 as [|c ws Hc _ IH]; [done|]. cbn. by rewrite Hc. Qed.

Lemma lstrip_app_nonblank s t : lstrip s ≠ [] -> lstrip (s ++ t) = lstrip s ++ t.
Proof.
  induction s as [|c s IH]; [done|]. cbn. destruct (isspace c); [apply IH|done].
Qed.

Lemma lstrip_nil_blank s : lstrip s = [] -> blank s.
Proof.
  induction s as [|c s IH]; [constructor|]. cbn.
  destruct (isspace c) eqn:Hc; [|done]. intros Hs. constructor; [done|by apply IH].
Qed.

Lemma rstrip_blank s ws : blank ws -> rstrip (s ++ ws) = rstrip s.
Proof.
  intros Hws. unfold rstrip. rewrite reverse_app, lstrip_blank; [done|].
  unfold blank. by rewrite Forall_reverse.
Qed.

Lemma strip_padding ws1 s ws2 : blank ws1 -> blank ws2 -> strip (ws1 ++ s ++ ws2) = strip s.
Proof.
  intros H1 H2. unfold strip. rewrite lstrip_blank by done.
  destruct (lstrip s) as [|c s'] eqn:Hs.
  - apply lstrip_nil_blank in Hs.
    rewrite <- (app_nil_r (s ++ ws2)), lstrip_blank; [done|].
    unfold blank in *. by rewrite Forall_app.
  - rewrite lstrip_app_nonblank by (by rewrite Hs). rewrite Hs. by apply rstrip_blank.
Qed.

Lemma query_rejected_strip s : query_rejected s = bool_decide (length (strip s) < 3).
Proof.
  unfold query_rejected. case_bool_decide as Hs; [|done].
  subst s. reflexivity.
Qed.

(** X2. White space around a query does not count: padding a query with
    white space at either end changes neither what [strip] leaves nor
    whether the query is refused; a query of white space alone is refused,
    however long it is. *)
Theorem whitespace_padding ws1 s ws2 :
  blank ws1 -> blank ws2 ->
  strip (ws1 ++ s ++ ws2) = strip s
  ∧ query_rejected (ws1 ++ s ++ ws2) = query_rejected s
  ∧ query_rejected (ws1 ++ ws2) = true.
Proof.
  intros H1 H2. split; [by apply strip_padding|]. split.
  - by rewrite !query_rejected_strip, strip_padding.
  - rewrite query_rejected_strip.
    change (ws1 ++ ws2) with (ws1 ++ [] ++ ws2). by rewrite strip_padding.
Qed.

(** ** More on the JSON extractor *)

Section MoreExtractorFacts.
Variable json_loads : pystr -> exception + json.

(** X3. Only the span counts for the value: the text before the first
    opening brace (closing braces included) and after the last closing brace
    (opening braces included) changes nothing on success; extracting from the
    span alone gives the same value; when [json.loads] refuses the span the
    text appears in the message only as a preview of at most 500
    characters, and another exception of [json.loads] is passed on whatever
    the text around the span. *)
Theorem extract_json_span_only pre mid post pre' post' :
  LBRACE ∉ pre -> RBRACE ∉ post -> LBRACE ∉ pre' -> RBRACE ∉ post' ->
  let span := LBRACE :: mid ++ [RBRACE] in
  (forall v, extract_json json_loads (pre ++ span ++ post) = inr v
             <-> json_loads span = inr v)
  ∧ (forall v, extract_json json_loads (pre ++ span ++ post) = inr v
               <-> extract_json json_loads (pre' ++ span ++ post') = inr v)
  ∧ (forall v, extract_json json_loads (pre ++ span ++ post) = inr v
               <-> extract_json json_loads span = inr v)
  ∧ (forall reason, json_loads span = inl (JSONDecodeError reason) ->
       exists preview,
         extract_json json_loads (pre ++ span ++ post)
         = inl (ValueError (lit "Failed to parse JSON: " ++ reason ++ [LF]
                            ++ lit "Preview: " ++ preview))
         ∧ preview `prefix_of` pre ++ span ++ post
         ∧ length preview <= 500)
  ∧ (forall e, json_loads span = inl e -> is_JSONDecodeError e = false ->
       extract_json json_loads (pre ++ span ++ post) = inl e).
Proof.
  intros Hpre Hpost Hpre' Hpost'. cbn zeta.
  assert (forall a b, LBRACE ∉ a -> RBRACE ∉ b ->
            extract_json json_loads (a ++ (LBRACE :: mid ++ [RBRACE]) ++ b)
            = match json_loads (LBRACE :: mid ++ [RBRACE]) with
              | inl (JSONDecodeError reason) =>
                inl (ValueError (lit "Failed to parse JSON: " ++ reason ++ [LF]
                                 ++ lit "Preview: "
                                 ++ take 500 (a ++ (LBRACE :: mid ++ [RBRACE]) ++ b)))
              | inl e => inl e
              | inr v => inr v
              end) as Heq.
  { intros a b Ha Hb. rewrite extract_json_eq.
    replace (a ++ (LBRACE :: mid ++ [RBRACE]) ++ b) with (a ++ LBRACE :: mid ++ RBRACE :: b)
      by (cbn; by rewrite <- app_assoc).
    by rewrite re_search_greedy. }
  assert (forall a b v, LBRACE ∉ a -> RBRACE ∉ b ->
            extract_json json_loads (a ++ (LBRACE :: mid ++ [RBRACE]) ++ b) = inr v
            <-> json_loads (LBRACE :: mid ++ [RBRACE]) = inr v) as Hvalue.
  { intros a b v Ha Hb. rewrite Heq by done. destruct (json_loads _) as [[]|]; naive_solver. }
  split; [intros v; by apply Hvalue|]. split.
  { intros v. by rewrite !Hvalue. }
  split.
  { intros v. rewrite Hvalue by done.
    rewrite <- (Hvalue [] [] v) by apply not_elem_of_nil.
    cbn [app]. by rewrite app_nil_r. }
  split.
  { intros reason Hreason. eexists. split; [|split].
    - rewrite Heq, Hreason by done. reflexivity.
    - apply prefix_take.
    - rewrite length_take. lia. }
  intros e He Hother. rewrite Heq, He by done. by destruct e.
Qed.
End MoreExtractorFacts.

(** ** More on the reference builder *)

Lemma all_results_app srs1 srs2 :
  all_results (srs1 ++ srs2) = all_results srs1 ++ all_results srs2.
Proof. unfold all_results. apply bind_app. Qed.

Lemma render_app start ks1 ks2 :
  render start (ks1 ++ ks2) = render start ks1 ++ render (start + length ks1) ks2.
Proof.
  revert start. induction ks1 as [|k ks1 IH]; intros start.
  - cbn. by rewrite Nat.add_0_r.
  - cbn [app]. rewrite !render_cons, IH, <- app_assoc. do 3 f_equal. cbn. lia.
Qed.

Lemma emitted_app srs1 srs2 :
  emitted (srs1 ++ srs2)
  = emitted srs1
    ++ filter (fun k => k ∉ filter (fun k => k.2 ≠ []) (key_of <$> all_results srs1))
         (emitted srs2).
Proof.
  unfold emitted. by rewrite all_results_app, fmap_app, filter_app, first_occurrences_app.
Qed.

Lemma filter_nil_Forall {A} (P : A -> Prop) `{forall x, Decision (P x)} (l : list A) :
  Forall (fun x => ¬ P x) l -> filter P l = [].
Proof. induction 1; [done|]. by rewrite filter_cons_False. Qed.

(** X4. More outcomes only add entries at the end: the text for [srs1] is
    the beginning of the text for [srs1 ++ srs2] and the entries of [srs1]
    keep their numbers; nothing is added when every record of [srs2] lacks a
    url or carries a pair that [srs1] has already, so repeating the outcomes
    changes nothing. *)
Theorem build_references_extension srs1 srs2 :
  (exists more,
     emitted (srs1 ++ srs2) = emitted srs1 ++ more
     ∧ build_references (srs1 ++ srs2)
       = build_references srs1 ++ render (1 + length (emitted srs1)) more)
  ∧ ((forall res, res ∈ all_results srs2 ->
        url_of res = [] ∨ key_of res ∈ key_of <$> all_results srs1) ->
     build_references (srs1 ++ srs2) = build_references srs1)
  ∧ build_references (srs1 ++ srs1) = build_references srs1.
Proof.
  assert (forall srs,
            (forall res, res ∈ all_results srs ->
               url_of res = [] ∨ key_of res ∈ key_of <$> all_results srs1) ->
            build_references (srs1 ++ srs) = build_references srs1) as Habsorbed.
  { intros srs Hold. rewrite !build_references_emitted, emitted_app.
    rewrite filter_nil_Forall; [by rewrite app_nil_r|].
    apply Forall_forall. intros k Hk Hnew. apply Hnew.
    apply elem_of_emitted in Hk as [Hk Hurl]. apply list_elem_of_filter. split; [done|].
    apply list_elem_of_fmap in Hk as (res & -> & Hres).
    destruct (Hold res Hres) as [Hempty|Hin]; [done|exact Hin]. }
  split; [|split].
  - eexists. split; [apply emitted_app|].
    by rewrite !build_references_emitted, emitted_app, render_app, <- app_assoc.
  - apply Habsorbed.
  - apply Habsorbed. intros res Hres. right. apply list_elem_of_fmap. eauto.
Qed.

(** X5. The text is a function of the sequence of (title, url) pairs alone:
    snippets, the query, reason and summary of the outcomes and the grouping
    of the records into outcomes do not matter; and there are at most as
    many entries as records with a url. *)
Theorem build_references_pairs_only srs srs' :
  (key_of <$> all_results srs = key_of <$> all_results srs' ->
   build_references srs = build_references srs')
  ∧ length (emitted srs) <= length (filter (fun res => url_of res ≠ []) (all_results srs))
  ∧ length (filter (fun res => url_of res ≠ []) (all_results srs)) <= length (all_results srs).
Proof.
  split; [|split].
  - intros Hkeys. rewrite !build_references_emitted. unfold emitted. by rewrite Hkeys.
  - unfold emitted.
    assert (forall ks : list (list N * list N), length (first_occurrences ks) <= length ks) as Hfo.
    { induction ks as [|k ks IH]; cbn; [done|].
      pose proof (length_filter (fun k' => k' ≠ k) (first_occurrences ks)). lia. }
    etrans; [apply Hfo|].
    induction (all_results srs) as [|res l IH]; [done|]. cbn [fmap list_fmap].
    destruct (decide (url_of res ≠ [])).
    + rewrite !filter_cons_True by done. cbn. lia.
    + rewrite !filter_cons_False by done. done.
  - apply length_filter.
Qed.

(** ** Validation of the report *)




(** ** More on the stages *)

Lemma extract_json_not_decode_error json_loads text e :
  extract_json json_loads text = inl e -> is_JSONDecodeError e = false.
Proof.
  rewrite extract_json_eq. destruct (re_search text) as [span|]; [|by intros [= <-]].
  destruct (json_loads span) as [[]|]; [by intros [= <-]..|done].
Qed.

Section MorePipelineFacts.
Context `{Env}.

Lemma plan_searches_eq query st :
  let st1 := reported st (1 # 10) (MARK_BRAIN ++ lit " Planning research strategy...") in
  let req := model_request (planner_input_text query) in
  plan_searches query st =
    match generate_content req (world st) with
    | (inl e, w) => (inl e, after_model st1 req w)
    | (inr text, w) =>
      match extract_json json_loads text with
      | inl e => (inl e, after_model st1 req w)
      | inr data =>
        match WebSearchPlan_init data with
        | inl e => (inl e, after_model st1 req w)
        | inr plan =>
          (inr plan,
           reported (after_model st1 req w) (2 # 10)
             (MARK_CHECK ++ lit " Planned " ++ str_of_nat (length (searches plan))
              ++ lit " searches"))
        end
      end
    end.
Proof.
  cbn zeta. unfold plan_searches, progress. rewrite bind_emit.
  unfold mbind at 1, M_bind at 1, bind at 1, call_model. cbn [world trace].
  destruct (generate_content _ _) as [[e|text] w]; [done|].
  unfold mbind at 1, M_bind at 1, bind at 1, try_except, lift.
  destruct (extract_json json_loads text) as [e|data] eqn:Hdata.
  { by rewrite (extract_json_not_decode_error _ _ _ Hdata). }
  unfold mbind at 1, M_bind at 1, bind at 1.
  by destruct (WebSearchPlan_init data) as [e|plan].
Qed.

(** X7. What [plan_searches] does, case by case: it reports the start of
    planning and calls the model once; an exception of the client, of
    [extract_json] or of the validation of the plan is passed on as it is,
    after these two steps and nothing else; otherwise the plan is returned
    after a report of its length. The handler for [JSONDecodeError] never
    runs, since [extract_json] turns every [JSONDecodeError] into a
    [ValueError] of its own: the exception of [extract_json] is the one the
    caller gets. *)
Theorem plan_searches_outcomes query st :
  (let st1 := reported st (1 # 10) (MARK_BRAIN ++ lit " Planning research strategy...") in
  let req := model_request (planner_input_text query) in
  plan_searches query st =
    match generate_content req (world st) with
    | (inl e, w) => (inl e, after_model st1 req w)
    | (inr text, w) =>
      match extract_json json_loads text with
      | inl e => (inl e, after_model st1 req w)
      | inr data =>
        match WebSearchPlan_init data with
        | inl e => (inl e, after_model st1 req w)
        | inr plan =>
          (inr plan,
           reported (after_model st1 req w) (2 # 10)
             (MARK_CHECK ++ lit " Planned " ++ str_of_nat (length (searches plan))
              ++ lit " searches"))
        end
      end
    end)
  ∧ (forall e st',
       plan_searches query st = (inl e, st') ->
       trace st'
       = trace st
         ++ [Progress (1 # 10) (MARK_BRAIN ++ lit " Planning research strategy...");
             ModelBegin (model_request (planner_input_text query)); ModelEnd]).
Proof.
  split; [apply plan_searches_eq|].
  intros e st'. rewrite plan_searches_eq. cbn zeta.
  destruct (generate_content _ _) as [[e0|text] w].
  { intros [= _ <-]. cbn. by rewrite <- app_assoc. }
  destruct (extract_json json_loads text) as [e0|data].
  { intros [= _ <-]. cbn. by rewrite <- app_assoc. }
  destruct (WebSearchPlan_init data) as [e0|plan]; [|done].
  intros [= _ <-]. cbn. by rewrite <- app_assoc.
Qed.

Lemma write_report_eq query outcomes st :
  let st1 := reported st (75 # 100) (MARK_MEMO ++ lit " Writing comprehensive report...") in
  let req := model_request (report_input_text query outcomes) in
  write_report query outcomes st =
    match generate_content req (world st) with
    | (inl e, w) => (inl e, after_model st1 req w)
    | (inr text, w) =>
      match extract_json json_loads text with
      | inl e => (inl e, after_model st1 req w)
      | inr data =>
        match ReportData_init data with
        | inl e => (inl e, after_model st1 req w)
        | inr report =>
          (inr {| short_summary := short_summary report;
                  markdown_report :=
                    markdown_report report ++ [LF; LF] ++ build_references outcomes;
                  follow_up_questions := follow_up_questions report |},
           reported (after_model st1 req w) 1 (MARK_CHECK ++ lit " Report completed!"))
        end
      end
    end.
Proof.
  cbn zeta. unfold write_report, progress. rewrite bind_emit.
  unfold mbind at 1, M_bind at 1, bind at 1, call_model. cbn [world trace].
  destruct (generate_content _ _) as [[e|text] w]; [done|].
  unfold mbind at 1, M_bind at 1, bind at 1, lift.
  destruct (extract_json json_loads text) as [e|data]; [done|].
  unfold mbind at 1, M_bind at 1, bind at 1.
  by destruct (ReportData_init data) as [e|report].
Qed.

(** X8. When [write_report] returns, the model was called once, with the
    prompt built from the query and the outcomes, and its answer held a
    mapping that validates as a report; the summary and the questions are
    the model's, and the markdown is the model's followed by a blank line
    and the references section built from the outcomes: the heading and the
    numbered entries. Completion is reported last. *)
Theorem write_report_appends_references query outcomes st report st' :
  write_report query outcomes st = (inr report, st') ->
  exists text w data answered,
    generate_content (model_request (report_input_text query outcomes)) (world st)
    = (inr text, w)
    ∧ extract_json json_loads text = inr data
    ∧ ReportData_init data = inr answered
    ∧ short_summary report = short_summary answered
    ∧ follow_up_questions report = follow_up_questions answered
    ∧ markdown_report report
      = markdown_report answered ++ [LF; LF] ++ REFERENCES_HEADING
        ++ render 1 (emitted outcomes)
    ∧ world st' = w
    ∧ trace st'
      = trace st
        ++ [Progress (75 # 100) (MARK_MEMO ++ lit " Writing comprehensive report...");
            ModelBegin (model_request (report_input_text query outcomes)); ModelEnd;
            Progress 1 (MARK_CHECK ++ lit " Report completed!")].
Proof.
  rewrite write_report_eq. cbn zeta.
  destruct (generate_content _ _) as [[e|text] w] eqn:Hmodel; [done|].
  destruct (extract_json json_loads text) as [e|data] eqn:Hdata; [done|].
  destruct (ReportData_init data) as [e|answered] eqn:Hreport; [done|].
  intros [= <- <-]. exists text, w, data, answered.
  cbn [short_summary follow_up_questions markdown_report world trace reported after_model].
  rewrite build_references_emitted, <- !app_assoc. by repeat split.
Qed.

(** X9. A run whose three stages return: the result is the summary of the
    report, its markdown, which ends with the references built from the
    outcomes of the search stage, and the follow-up questions numbered from
    1, one per line (the empty text when there is none). *)
Theorem pipeline_success query st plan st1 outcomes st2 report st3 :
  query_rejected query = false ->
  plan_searches query (started st) = (inr plan, st1) ->
  perform_searches plan st1 = (inr outcomes, st2) ->
  write_report query outcomes st2 = (inr report, st3) ->
  run_research_pipeline query st
  = (inr (short_summary report, markdown_report report,
          numbered_questions (follow_up_questions report)), st3)
  ∧ (exists body, markdown_report report = body ++ [LF; LF] ++ build_references outcomes)
  ∧ (follow_up_questions report = [] -> numbered_questions (follow_up_questions report) = []).
Proof.
  intros Hq Hplan Hsearch Hreport. split; [|split].
  - rewrite run_research_pipeline_eq. unfold pipeline_body, progress. rewrite Hq.
    rewrite bind_emit. fold (started st).
    rewrite (bind_inr _ _ _ _ _ Hplan), (bind_inr _ _ _ _ _ Hsearch),
      (bind_inr _ _ _ _ _ Hreport).
    unfold numbered_questions. by rewrite enumerate_zip_seq.
  - revert Hreport. rewrite write_report_eq. cbn zeta.
    destruct (generate_content _ _) as [[e|text] w]; [done|].
    destruct (extract_json json_loads text) as [e|data]; [done|].
    destruct (ReportData_init data) as [e|answered]; [done|].
    intros [= <- <-]. by exists (markdown_report answered).
  - by intros ->.
Qed.

(** X10. The planner's model answers with prose that has no brace pair: the
    run ends with the error mark and "No JSON object found in text.", the
    model was called once, and the provider never. *)
Theorem prose_answer_ends_run query st text w :
  query_rejected query = false ->
  generate_content (model_request (planner_input_text query)) (world st) = (inr text, w) ->
  (¬ exists a b c, text = a ++ LBRACE :: b ++ RBRACE :: c) ->
  run_research_pipeline query st
  = (inr (ERROR_PREFIX ++ lit "No JSON object found in text.", [], []),
     {| world := w;
        trace :=
          trace st
          ++ [Progress 0 (MARK_ROCKET ++ lit " Starting research pipeline...");
              Progress (1 # 10) (MARK_BRAIN ++ lit " Planning research strategy...");
              ModelBegin (model_request (planner_input_text query)); ModelEnd] |}).
Proof.
  intros Hq Hmodel Hprose.
  assert (plan_searches query (started st)
          = (inl (ValueError (lit "No JSON object found in text.")),
             after_model (reported (started st) (1 # 10)
                            (MARK_BRAIN ++ lit " Planning research strategy..."))
               (model_request (planner_input_text query)) w)) as Hplan.
  { rewrite plan_searches_eq. cbn zeta. cbn [world started].
    rewrite Hmodel. rewrite extract_json_eq.
    by rewrite (proj2 (re_search_None text) Hprose). }
  rewrite run_research_pipeline_eq, (pipeline_body_plan_raises _ _ _ _ Hq Hplan).
  unfold after_model, reported, started. cbn [world trace exception_str].
  by rewrite <- !app_assoc.
Qed.
End MorePipelineFacts.

Lemma fmap_snd_enumerate {A} start (l : list A) : (enumerate start l).*2 = l.
Proof. revert start. induction l as [|x l IH]; intros start; cbn; [done|]. by rewrite IH. Qed.

Lemma enumerate_app {A} start (l1 l2 : list A) :
  enumerate start (l1 ++ l2) = enumerate start l1 ++ enumerate (start + length l1) l2.
Proof.
  revert start. induction l1 as [|x l1 IH]; intros start; cbn.
  - by rewrite Nat.add_0_r.
  - by rewrite IH, Nat.add_succ_r.
Qed.

Section SearchStageFacts.
Context `{Env}.

(** The search stage adds no event of the model. *)
Lemma emits_ret {A} (x : A) (P : list event -> Prop) : P [] -> emits (mret x) P.
Proof. intros HP st. exists []. cbn. by rewrite app_nil_r. Qed.

Lemma emits_raise {A} e (P : list event -> Prop) : P [] -> emits (raise (A:=A) e) P.
Proof. intros HP st. exists []. cbn. by rewrite app_nil_r. Qed.

Lemma emits_emit ev (P : list event -> Prop) : P [ev] -> emits (emit ev) P.
Proof. intros HP st. by exists [ev]. Qed.

Lemma emits_call_search params (P : list event -> Prop) :
  P [SearchBegin params; SearchEnd] -> emits (call_search params) P.
Proof.
  intros HP st. exists [SearchBegin params; SearchEnd].
  unfold call_search. by destruct (get_dict _ _).
Qed.

Lemma emits_bind {A B} (m : M A) (k : A -> M B) (P : list event -> Prop) :
  (forall t1 t2, P t1 -> P t2 -> P (t1 ++ t2)) ->
  emits m P -> (forall x, emits (k x) P) -> emits (m ≫= k) P.
Proof.
  intros Happ Hm Hk st. unfold mbind, M_bind, bind.
  destruct (Hm st) as (t1 & Ht1 & HP1). destruct (m st) as [[e|x] st1]; cbn in *.
  - by exists t1.
  - destruct (Hk x st1) as (t2 & -> & HP2). exists (t1 ++ t2).
    rewrite Ht1, <- app_assoc. auto.
Qed.

Lemma no_model_app t1 t2 : no_model t1 -> no_model t2 -> no_model (t1 ++ t2).
Proof. unfold no_model. rewrite Forall_app. auto. Qed.

Lemma model_requests_no_model tr : no_model tr -> model_requests tr = [].
Proof.
  unfold model_requests. induction 1 as [|ev tr Hev _ IH]; [done|].
  cbn. rewrite IH. by destruct ev.
Qed.

Lemma emits_search_web query reason : emits (search_web query reason) no_model.
Proof.
  unfold search_web. case_bool_decide; [apply emits_raise; constructor|].
  apply emits_bind; [apply no_model_app| |].
  - apply emits_call_search. by repeat constructor.
  - intros data. apply emits_ret. constructor.
Qed.

Lemma emits_loop total items results :
  emits (perform_searches_loop total items results) no_model.
Proof.
  revert results. induction items as [|[i item] items IH]; intros results; cbn.
  - apply emits_ret. constructor.
  - unfold progress. apply emits_bind; [apply no_model_app| |].
    { apply emits_emit. by repeat constructor. }
    intros _. apply emits_bind; [apply no_model_app|apply emits_search_web|].
    intros text. apply emits_bind; [apply no_model_app| |].
    { unfold loads_outcome. destruct (json_loads_outcome text);
        [apply emits_raise|apply emits_ret]; constructor. }
    intros outcome. apply emits_bind; [apply no_model_app| |].
    { apply emits_emit. by repeat constructor. }
    intros _. apply IH.
Qed.

Lemma emits_perform_searches plan : emits (perform_searches plan) no_model.
Proof.
  unfold perform_searches, progress.
  apply emits_bind; [apply no_model_app|apply emits_loop|].
  intros outs. apply emits_bind; [apply no_model_app| |].
  - apply emits_emit. by repeat constructor.
  - intros _. apply emits_ret. constructor.
Qed.

(** X11. The order of a run, whatever happens in it: the events it adds
    fall into three parts, the planning, with no call of the provider and at
    most one call of the model, the searching, with no call of the model,
    and the writing, again with no call of the provider and at most one call
    of the model. So the model is called at most twice, every call of the
    provider lies between the two, and nothing follows a planning in which
    the model was not called with the planning prompt. *)
Theorem pipeline_order query st :
  exists planning searching writing,
    trace (run_research_pipeline query st).2 = trace st ++ planning ++ searching ++ writing
    ∧ no_search planning ∧ no_model searching ∧ no_search writing
    ∧ length (model_requests planning) <= 1
    ∧ length (model_requests writing) <= 1
    ∧ (searching ++ writing ≠ [] ->
       model_requests planning = [model_request (planner_input_text query)]).
Proof.
  rewrite run_research_pipeline_eq.
  assert (exists planning searching writing,
            trace (pipeline_body query st).2 = trace st ++ planning ++ searching ++ writing
            ∧ no_search planning ∧ no_model searching ∧ no_search writing
            ∧ length (model_requests planning) <= 1
            ∧ length (model_requests writing) <= 1
            ∧ (searching ++ writing ≠ [] ->
               model_requests planning = [model_request (planner_input_text query)]))
    as (t1 & t2 & t3 & Htrace & Hrest).
  2:{ exists t1, t2, t3. split; [|exact Hrest].
      by destruct (pipeline_body query st) as [[e|t] st']. }
  unfold pipeline_body. destruct (query_rejected query).
  { exists [], [], []. cbn. rewrite app_nil_r.
    split_and!; [done|constructor|constructor|constructor|lia|lia|done]. }
  unfold progress. rewrite bind_emit. fold (started st).
  unfold mbind at 1, M_bind at 1, bind at 1. rewrite plan_searches_eq. cbn zeta.
  set (t_failed := [Progress 0 (MARK_ROCKET ++ lit " Starting research pipeline...");
                    Progress (1 # 10) (MARK_BRAIN ++ lit " Planning research strategy...");
                    ModelBegin (model_request (planner_input_text query)); ModelEnd]).
  assert (forall w,
            trace (after_model
                     (reported (started st) (1 # 10)
                        (MARK_BRAIN ++ lit " Planning research strategy..."))
                     (model_request (planner_input_text query)) w)
            = trace st ++ t_failed) as Hfailed.
  { intros w. cbn. by rewrite <- !app_assoc. }
  assert (forall w e,
    exists planning searching writing,
      trace (@inl exception (pystr * pystr * pystr) e,
             after_model
               (reported (started st) (1 # 10)
                  (MARK_BRAIN ++ lit " Planning research strategy..."))
               (model_request (planner_input_text query)) w).2
      = trace st ++ planning ++ searching ++ writing
      ∧ no_search planning ∧ no_model searching ∧ no_search writing
      ∧ length (model_requests planning) <= 1
      ∧ length (model_requests writing) <= 1
      ∧ (searching ++ writing ≠ [] ->
         model_requests planning = [model_request (planner_input_text query)])) as Hcase.
  { intros w e. exists t_failed, [], []. cbn [snd]. rewrite Hfailed, !app_nil_r.
    split_and!; [done|by repeat constructor|constructor|constructor|cbn; lia|cbn; lia|done]. }
  destruct (generate_content _ _) as [[e|text] w]; [apply Hcase|].
  destruct (extract_json json_loads text) as [e|data]; [apply Hcase|].
  destruct (WebSearchPlan_init data) as [e|plan]; [apply Hcase|]. clear Hcase.
  set (st1 := reported _ (2 # 10) _).
  set (t_planned := t_failed ++ [Progress (2 # 10)
                                   (MARK_CHECK ++ lit " Planned "
                                    ++ str_of_nat (length (searches plan)) ++ lit " searches")]).
  assert (trace st1 = trace st ++ t_planned) as Hst1.
  { unfold st1, t_planned. cbn [trace reported]. by rewrite Hfailed, <- app_assoc. }
  assert (no_search t_planned ∧ model_requests t_planned
                                = [model_request (planner_input_text query)])
    as [Hquiet Hcalled] by (split; [by repeat constructor|done]).
  unfold mbind at 1, M_bind at 1, bind at 1.
  destruct (emits_perform_searches plan st1) as (t2 & Ht2 & Hnomodel).
  destruct (perform_searches plan st1) as [[e|outcomes] st2]; cbn [snd] in Ht2.
  { exists t_planned, t2, []. cbn [snd]. rewrite Ht2, Hst1, Hcalled, !app_nil_r, <- app_assoc.
    split_and!; [done|done|done|constructor|cbn; lia|cbn; lia|done]. }
  unfold mbind at 1, M_bind at 1, bind at 1. rewrite write_report_eq. cbn zeta.
  assert (forall more : list event,
            no_search more -> no_model more ->
            exists planning searching writing,
              trace st2
              ++ [Progress (75 # 100) (MARK_MEMO ++ lit " Writing comprehensive report...");
                  ModelBegin (model_request (report_input_text query outcomes)); ModelEnd]
              ++ more
              = trace st ++ planning ++ searching ++ writing
              ∧ no_search planning ∧ no_model searching ∧ no_search writing
              ∧ length (model_requests planning) <= 1
              ∧ length (model_requests writing) <= 1
              ∧ (searching ++ writing ≠ [] ->
                 model_requests planning = [model_request (planner_input_text query)]))
    as Hwriting.
  { intros more Hmore1 Hmore2. eexists t_planned, t2, (_ :: _ :: _ :: more).
    rewrite Ht2, Hst1, Hcalled, <- !app_assoc. split; [done|].
    split; [done|]. split; [done|]. split; [by repeat constructor|].
    split; [done|]. split; [|done].
    change (model_requests (_ :: ModelBegin ?r :: _ :: more)) with (r :: model_requests more).
    by rewrite (model_requests_no_model more Hmore2). }
  destruct (generate_content _ _) as [[e|text'] w'].
  { destruct (Hwriting []) as (a & b & c & Heq & Hrest); [constructor..|].
    exists a, b, c. split; [|exact Hrest]. cbn. rewrite <- Heq. by rewrite <- !app_assoc. }
  destruct (extract_json json_loads text') as [e|data'].
  { destruct (Hwriting []) as (a & b & c & Heq & Hrest); [constructor..|].
    exists a, b, c. split; [|exact Hrest]. cbn. rewrite <- Heq. by rewrite <- !app_assoc. }
  destruct (ReportData_init data') as [e|report].
  { destruct (Hwriting []) as (a & b & c & Heq & Hrest); [constructor..|].
    exists a, b, c. split; [|exact Hrest]. cbn. rewrite <- Heq. by rewrite <- !app_assoc. }
  destruct (Hwriting [Progress 1 (MARK_CHECK ++ lit " Report completed!")])
    as (a & b & c & Heq & Hrest); [by repeat constructor..|].
  exists a, b, c. split; [|exact Hrest]. cbn. rewrite <- Heq. by rewrite <- !app_assoc.
Qed.
End SearchStageFacts.

Lemma bind_snd {A B C} (f : B -> list C) (l : list (A * B)) :
  l ≫= (fun '(_, item) => f item) = l.*2 ≫= f.
Proof. induction l as [|[i x] l IH]; cbn; [done|]. by rewrite IH. Qed.

Lemma dom_normalize `{Env} r :
  dom (normalize r) = ({[ lit "title"; lit "url"; lit "snippet" ]} : gset (list N)).
Proof. unfold normalize. rewrite !dom_insert_L, dom_singleton_L. set_solver. Qed.

Lemma outline_app t1 t2 : outline (t1 ++ t2) = outline t1 ++ outline t2.
Proof. unfold outline. apply omap_app. Qed.

Section MoreSearchFacts.
Context `{Env}.

(** X12. One search, in full. The provider is asked once, with the query; the
    reason plays no part in the call. When the provider raises, [search_web]
    raises the same exception. Otherwise it returns the JSON text of an
    output that carries the query and the reason, one record for each
    organic result the provider gave, however many there are, each with the
    three keys title, url and snippet and no other, and the summary line
    that counts them; without organic results the output has no record. *)
Theorem search_web_outcomes query reason st :
  (forall reason', (search_web query reason' st).2 = (search_web query reason st).2)
  ∧ match get_dict (search_params query) (world st) with
    | (inl e, w) => search_web query reason st = (inl e, after_search st query w)
    | (inr data, w) =>
      exists out,
        search_web query reason st = (inr (json_dumps out), after_search st query w)
        ∧ out_query out = query ∧ out_reason out = reason
        ∧ length (results out) = length (default [] (organic_results data))
        ∧ Forall (fun r => dom r = ({[ lit "title"; lit "url"; lit "snippet" ]} : gset (list N)))
            (results out)
        ∧ summary out = lit "Top " ++ str_of_nat (length (results out))
                        ++ lit " search results for '" ++ query ++ lit "'"
        ∧ (organic_results data = None -> results out = [])
    end.
Proof.
  split.
  - intros reason'. rewrite !search_web_eq.
    by destruct (get_dict _ _) as [[e|data] w].
  - rewrite search_web_eq. destruct (get_dict _ _) as [[e|data] w]; [done|].
    eexists. split; [done|]. cbn [out_query out_reason results summary search_output].
    split_and!; try done.
    + by rewrite length_fmap.
    + apply Forall_fmap, Forall_forall. intros r _. apply dom_normalize.
    + by intros ->.
Qed.

Section UnderTheLaw.
Hypothesis loads_dumps : forall o, json_loads_outcome (json_dumps o) = inr o.

Lemma loop_raises total items results st e st' :
  perform_searches_loop total items results st = (inl e, st') ->
  exists done i item rest datas w,
    items = done ++ (i, item) :: rest
    ∧ asked done.*2 (world st) = (inr datas, w)
    ∧ get_dict (search_params (query item)) w = (inl e, world st')
    ∧ search_events (trace st')
      = search_events (trace st) ++ (done.*2 ≫= item_events) ++ item_events item
    ∧ last (trace st') = Some SearchEnd.
Proof using loads_dumps.
  revert results st. induction items as [|[i item] items IH]; intros results st; cbn.
  - done.
  - unfold progress. rewrite bind_emit.
    unfold mbind at 1, M_bind at 1, bind at 1. rewrite search_web_eq. cbn [world trace].
    destruct (get_dict _ _) as [[e'|data] w] eqn:Hcall.
    + intros [= <- <-]. exists [], i, item, items, [], (world st).
      split; [done|]. split; [done|]. split; [done|]. cbn [after_search trace world]. split.
      * unfold search_events. rewrite !filter_app. cbn. by rewrite app_nil_r.
      * by rewrite last_app.
    + unfold loads_outcome. rewrite loads_dumps.
      unfold mbind at 1, M_bind at 1, bind at 1. cbn [mret M_ret ret].
      rewrite bind_emit. intros Hloop.
      apply IH in Hloop
        as (done & j & item' & rest & datas & w' & -> & Hdone & Hw' & Htrace & Hlast).
      cbn [world after_search] in Hdone.
      exists ((i, item) :: done), j, item', rest, (data :: datas), w'.
      split; [done|]. split.
      { cbn [fmap list_fmap snd asked]. by rewrite Hcall, Hdone. }
      split; [done|]. split; [|done].
      rewrite Htrace. cbn [trace world after_search]. unfold search_events.
      rewrite !filter_app. cbn. rewrite !app_nil_r. by rewrite <- !app_assoc.
Qed.

Lemma loop_raises_at total done i item rest results st datas w e w' :
  asked done.*2 (world st) = (inr datas, w) ->
  get_dict (search_params (query item)) w = (inl e, w') ->
  exists st',
    perform_searches_loop total (done ++ (i, item) :: rest) results st = (inl e, st')
    ∧ world st' = w'.
Proof using loads_dumps.
  revert results st datas. induction done as [|[j item'] done IH]; intros results st datas; cbn.
  - intros [= <- <-] Hcall. unfold progress. rewrite bind_emit.
    unfold mbind at 1, M_bind at 1, bind at 1. rewrite search_web_eq. cbn [world trace].
    rewrite Hcall. by eexists.
  - destruct (get_dict _ (world st)) as [[e'|data] w1] eqn:Hfirst; [done|].
    destruct (asked done.*2 w1) as [[e'|datas'] w2] eqn:Hdone; [done|].
    intros [= <- <-] Hcall. unfold progress. rewrite bind_emit.
    unfold mbind at 1, M_bind at 1, bind at 1. rewrite search_web_eq. cbn [world trace].
    rewrite Hfirst. unfold loads_outcome. rewrite loads_dumps.
    unfold mbind at 1, M_bind at 1, bind at 1. cbn [mret M_ret ret].
    rewrite bind_emit. by eapply IH.
Qed.

(** X13. How the search stage fails, the text of an output being read back
    as written: exactly when the provider raises, and at the first item for
    which it does. When the stage raises, the provider answered the calls
    for the items before some item of the plan, one after the other from
    the world the stage started in, and raised this exception at the call
    for that item, in the world those calls left; the items before it were
    searched in the order of the plan, the call that raised is the last
    thing the stage did, and no later item of the plan was searched.
    Conversely, when the provider answers for the first items of the plan
    and raises for the next, the stage raises that exception. *)
Theorem perform_searches_first_failure plan st :
  (forall e st',
     perform_searches plan st = (inl e, st') ->
     exists done item rest datas w,
       searches plan = done ++ item :: rest
       ∧ asked done (world st) = (inr datas, w)
       ∧ get_dict (search_params (query item)) w = (inl e, world st')
       ∧ search_events (trace st')
         = search_events (trace st) ++ (done ≫= item_events) ++ item_events item
       ∧ last (trace st') = Some SearchEnd)
  ∧ (forall done item rest datas w e w',
       searches plan = done ++ item :: rest ->
       asked done (world st) = (inr datas, w) ->
       get_dict (search_params (query item)) w = (inl e, w') ->
       exists st', perform_searches plan st = (inl e, st') ∧ world st' = w').
Proof using loads_dumps.
  split.
  - intros e st'. unfold perform_searches, progress.
    unfold mbind at 1, M_bind at 1, bind at 1.
    destruct (perform_searches_loop _ _ _ st) as [[e'|outs] st1] eqn:Hloop.
    + intros [= <- <-].
      apply loop_raises in Hloop
        as (done & i & item & rest & datas & w & Hitems & Hdone & Hw & Htrace & Hlast).
      exists done.*2, item, rest.*2, datas, w. split; [|done].
      rewrite <- (fmap_snd_enumerate 1 (searches plan)), Hitems.
      by rewrite fmap_app.
    + by rewrite bind_emit.
  - intros done item rest datas w e w' Hitems Hdone Hcall.
    unfold perform_searches, progress. rewrite Hitems, enumerate_app. cbn [enumerate].
    rewrite <- (fmap_snd_enumerate 1 done) in Hdone.
    destruct (loop_raises_at (length (done ++ item :: rest)) (enumerate 1 done)
                (1 + length done) item (enumerate (S (1 + length done)) rest) [] st
                datas w e w' Hdone Hcall) as (st' & Hloop & Hworld).
    exists st'. unfold mbind at 1, M_bind at 1, bind at 1. by rewrite Hloop.
Qed.
End UnderTheLaw.

Lemma loop_outline total items results st outs st' :
  perform_searches_loop total items results st = (inr outs, st') ->
  outline (trace st')
  = outline (trace st)
    ++ (items ≫= fun '(i, item) => [inl (searching_label total i item); inr (query item)]).
Proof.
  revert results st. induction items as [|[i item] items IH]; intros results st; cbn.
  - intros [= <- <-]. by rewrite app_nil_r.
  - unfold progress. rewrite bind_emit.
    unfold mbind at 1, M_bind at 1, bind at 1. rewrite search_web_eq. cbn [world trace].
    destruct (get_dict _ _) as [[e|data] w]; [done|].
    unfold loads_outcome. destruct (json_loads_outcome _) as [reason|outcome]; [done|].
    unfold mbind at 1, M_bind at 1, bind at 1. cbn [mret M_ret ret].
    rewrite bind_emit. intros Hloop. apply IH in Hloop as ->.
    cbn [trace world after_search]. rewrite !outline_app. cbn. by rewrite <- !app_assoc.
Qed.

(** X14. What the user is shown of a search stage that returns: before each
    call of the provider a label with the position of the search, the number
    of searches and the first fifty characters of its query followed by
    three dots, whether the query was cut or not, then that call with the
    whole query, and after the last one the label of completion. *)
Theorem perform_searches_outline plan st outcomes st' :
  perform_searches plan st = (inr outcomes, st') ->
  outline (trace st')
  = outline (trace st)
    ++ (enumerate 1 (searches plan) ≫= fun '(i, item) =>
          [inl (searching_label (length (searches plan)) i item); inr (query item)])
    ++ [inl (MARK_CHECK ++ lit " Completed all searches")].
Proof.
  unfold perform_searches, progress.
  unfold mbind at 1, M_bind at 1, bind at 1.
  destruct (perform_searches_loop _ _ _ st) as [[e|outs] st1] eqn:Hloop; [done|].
  rewrite bind_emit. cbn. intros [= <- <-].
  apply loop_outline in Hloop. cbn [trace]. rewrite outline_app, Hloop.
  by rewrite <- app_assoc.
Qed.
End MoreSearchFacts.

(** ** The further properties at the sample inputs *)

(** X1: escaping a double quote twice is not escaping it once. *)
Lemma json_safe_algebra_witness :
  json_safe (json_safe [DQUOTE]) ≠ json_safe [DQUOTE]
  ∧ length (json_safe (lit "a\b")) = 4.
Proof.
  split.
  - intros Heq.
    apply (proj1 (proj1 (proj2 (proj2 (proj2 (json_safe_algebra [DQUOTE] [])))))) in Heq.
    revert Heq. by_evaluation.
  - rewrite (proj1 (proj2 (json_safe_algebra (lit "a\b") []))). vm_compute. reflexivity.
Defined.

(** X2: the padded query is refused as its two letters are. *)
Lemma whitespace_padding_witness :
  strip demo_padded = strip (lit "ai")
  ∧ query_rejected demo_padded = query_rejected (lit "ai")
  ∧ query_rejected (lit "  " ++ [32%N; LF]) = true.
Proof.
  apply (whitespace_padding (lit "  ") (lit "ai") [32%N; LF]); by_evaluation.
Defined.

(** X3: the object is found between a closing brace and an opening brace. *)
Lemma extract_json_span_only_witness :
  extract_json Sample.loads demo_object_text = inr (JObj [(lit "a", JStr (lit "b"))]).
Proof.
  apply (proj1 (extract_json_span_only Sample.loads
                  (lit "} see: ") (quoted (lit "a") ++ lit ": " ++ quoted (lit "b")) (lit " {end")
                  [] []
                  ltac:(by_evaluation) ltac:(by_evaluation)
                  ltac:(by_evaluation) ltac:(by_evaluation))).
  vm_compute. reflexivity.
Defined.

(** X4: the exchanged outcomes add nothing to the references of the sample
    outcomes. *)
Lemma build_references_extension_witness :
  build_references (demo_outcomes ++ demo_outcomes_exchanged) = build_references demo_outcomes.
Proof.
  apply (proj1 (proj2 (build_references_extension demo_outcomes demo_outcomes_exchanged))).
  apply Forall_forall. by_evaluation.
Defined.

(** X5: the records of the sample outcomes in one outcome give the same text. *)
Lemma build_references_pairs_only_witness :
  build_references demo_outcomes = build_references demo_outcomes_merged.
Proof.
  apply (proj1 (build_references_pairs_only demo_outcomes demo_outcomes_merged)).
  vm_compute. reflexivity.
Defined.


(** X7: the planner's model answers with prose: what the planner leaves. *)
Lemma plan_searches_outcomes_witness :
  trace (plan_searches (lit "quantum computing")
           (demo_start Sample.scripted_provider demo_prose)).2
  = [Progress (1 # 10) (MARK_BRAIN ++ lit " Planning research strategy...");
     ModelBegin (model_request (planner_input_text (lit "quantum computing"))); ModelEnd].
Proof.
  apply (proj2 (plan_searches_outcomes (lit "quantum computing")
                  (demo_start Sample.scripted_provider demo_prose))
           (ValueError (lit "No JSON object found in text."))).
  vm_compute. reflexivity.
Defined.

(** X12: one search at the sample answer of the provider. *)
Lemma search_web_outcomes_witness :
  exists out,
    search_web (lit "qubit basics") (lit "background")
      (demo_start Sample.scripted_provider demo_complete)
    = (inr (Sample.encode_outcome out),
       after_search (demo_start Sample.scripted_provider demo_complete) (lit "qubit basics")
         {| Sample.model_answers := [inr demo_plan_text; inr demo_report_text];
            Sample.provider_answers := [inr demo_data] |})
    ∧ out_query out = lit "qubit basics" ∧ out_reason out = lit "background"
    ∧ length (results out) = 2
    ∧ Forall (fun r => dom r = ({[ lit "title"; lit "url"; lit "snippet" ]} : gset (list N)))
        (results out)
    ∧ summary out = lit "Top " ++ str_of_nat (length (results out))
                    ++ lit " search results for '" ++ lit "qubit basics" ++ lit "'"
    ∧ (organic_results demo_data = None -> results out = []).
Proof.
  exact (proj2 (search_web_outcomes (lit "qubit basics") (lit "background")
                  (demo_start Sample.scripted_provider demo_complete))).
Defined.

(** X13: the provider answers the first query of the sample plan and
    refuses the second. *)
Lemma perform_searches_first_failure_witness :
  (exists done item rest datas w,
     searches demo_plan = done ++ item :: rest
     ∧ asked (H := Sample.env Sample.scripted_provider) done demo_refused = (inr datas, w)
     ∧ Sample.scripted_provider (search_params (query item)) w
       = (inl (ClientError (lit "Invalid API key")),
          world (perform_searches demo_plan (demo_start Sample.scripted_provider demo_refused)).2)
     ∧ search_events
         (trace (perform_searches demo_plan (demo_start Sample.scripted_provider demo_refused)).2)
       = search_events [] ++ (done ≫= item_events) ++ item_events item
     ∧ last (trace (perform_searches demo_plan
                      (demo_start Sample.scripted_provider demo_refused)).2)
       = Some SearchEnd)
  ∧ (exists st',
       perform_searches demo_plan (demo_start Sample.scripted_provider demo_refused)
       = (inl (ClientError (lit "Invalid API key")), st')
       ∧ world st'
         = {| Sample.model_answers := [inr demo_plan_text]; Sample.provider_answers := [] |}).
Proof.
  pose proof (perform_searches_first_failure (H := Sample.env Sample.scripted_provider)
                SampleFacts.loads_search_output_encode demo_plan
                (demo_start Sample.scripted_provider demo_refused)) as [Hraises Hat].
  split.
  - apply (Hraises (ClientError (lit "Invalid API key"))). vm_compute. reflexivity.
  - apply (Hat [{| reason := lit "background"; query := lit "qubit basics" |}]
             {| reason := lit "uses"; query := lit "quantum applications" |} []
             [demo_data]
             {| Sample.model_answers := [inr demo_plan_text];
                Sample.provider_answers := [inl (ClientError (lit "Invalid API key"))] |});
      vm_compute; reflexivity.
Defined.

(** X14: what is shown of the search stage on the sample plan. *)
Lemma perform_searches_outline_witness :
  outline (trace (perform_searches demo_plan
                    (demo_start (Sample.fixed_provider demo_data) demo_complete)).2)
  = [inl (MARK_LENS ++ lit " Searching (1/2): qubit basics...");
     inr (lit "qubit basics");
     inl (MARK_LENS ++ lit " Searching (2/2): quantum applications...");
     inr (lit "quantum applications");
     inl (MARK_CHECK ++ lit " Completed all searches")].
Proof.
  apply (perform_searches_outline demo_plan
           (demo_start (Sample.fixed_provider demo_data) demo_complete) demo_found).
  vm_compute. reflexivity.
Defined.

(** X8: the report for the sample outcomes ends with their references. *)
Lemma write_report_appends_references_witness :
  exists text w data answered,
    Sample.scripted_model (model_request (report_input_text (lit "quantum computing") demo_found))
      demo_report_script
    = (inr text, w)
    ∧ extract_json Sample.loads text = inr data
    ∧ ReportData_init data = inr answered
    ∧ short_summary demo_report = short_summary answered
    ∧ follow_up_questions demo_report = follow_up_questions answered
    ∧ markdown_report demo_report
      = markdown_report answered ++ [LF; LF] ++ REFERENCES_HEADING
        ++ render 1 (emitted demo_found)
    ∧ world (write_report (lit "quantum computing") demo_found
               (demo_start Sample.scripted_provider demo_report_script)).2 = w
    ∧ trace (write_report (lit "quantum computing") demo_found
               (demo_start Sample.scripted_provider demo_report_script)).2
      = [] ++ [Progress (75 # 100) (MARK_MEMO ++ lit " Writing comprehensive report...");
               ModelBegin (model_request (report_input_text (lit "quantum computing") demo_found));
               ModelEnd;
               Progress 1 (MARK_CHECK ++ lit " Report completed!")].
Proof.
  apply (write_report_appends_references (lit "quantum computing") demo_found
           (demo_start Sample.scripted_provider demo_report_script) demo_report).
  vm_compute. reflexivity.
Defined.

(** X9: the whole run on the sample script. *)
Lemma pipeline_success_witness :
  (run_research_pipeline (lit "quantum computing")
     (demo_start Sample.scripted_provider demo_complete)).1
  = inr (lit "Qubits in brief",
         lit "# Qubits" ++ [LF; LF] ++ demo_references,
         lit "1. What next?" ++ [LF] ++ lit "2. Who builds them?").
Proof.
  pose (st := demo_start Sample.scripted_provider demo_complete).
  pose (st1 := (plan_searches (lit "quantum computing") (started st)).2).
  pose (st2 := (perform_searches demo_plan st1).2).
  assert (plan_searches (lit "quantum computing") (started st) = (inr demo_plan, st1))
    as Hplan by (vm_compute; reflexivity).
  assert (perform_searches demo_plan st1 = (inr demo_found, st2))
    as Hsearch by (vm_compute; reflexivity).
  assert (write_report (lit "quantum computing") demo_found st2
          = (inr demo_report, (write_report (lit "quantum computing") demo_found st2).2))
    as Hreport by (vm_compute; reflexivity).
  refine (eq_trans (f_equal fst
            (proj1 (pipeline_success (lit "quantum computing") st demo_plan st1 demo_found st2
                      demo_report _ eq_refl Hplan Hsearch Hreport))) _).
  vm_compute. reflexivity.
Defined.

(** X10: the run in which the planner's model answers with prose. *)
Lemma prose_answer_ends_run_witness :
  (run_research_pipeline (lit "quantum computing")
     (demo_start Sample.scripted_provider demo_prose)).1
  = inr (ERROR_PREFIX ++ lit "No JSON object found in text.", [], []).
Proof.
  refine (f_equal fst
            (prose_answer_ends_run (lit "quantum computing")
               (demo_start Sample.scripted_provider demo_prose) demo_prose_text
               {| Sample.model_answers := []; Sample.provider_answers := [] |}
               eq_refl eq_refl _)).
  intros (a & b & c & Heq).
  assert (LBRACE ∉ demo_prose_text) as Hno by by_evaluation.
  apply Hno. rewrite Heq. apply elem_of_app. right. apply list_elem_of_here.
Defined.

(** X11: the order of the run on the sample script. *)
Lemma pipeline_order_witness :
  exists planning searching writing,
    trace (run_research_pipeline (lit "quantum computing")
             (demo_start Sample.scripted_provider demo_complete)).2
    = [] ++ planning ++ searching ++ writing
    ∧ no_search planning ∧ no_model searching ∧ no_search writing
    ∧ length (model_requests planning) <= 1
    ∧ length (model_requests writing) <= 1
    ∧ (searching ++ writing ≠ [] ->
       model_requests planning
       = [model_request (planner_input_text (lit "quantum computing"))]).
Proof.
  exact (pipeline_order (lit "quantum computing")
           (demo_start Sample.scripted_provider demo_complete)).
Defined.
